(** * image_to_webp: sizing, per-image pipeline and batch policy

    A shallow embedding of [src/image_to_webp.py].

    - Python [int] is [Z]; Python [float] is IEEE-754 binary64, taken from
      the Standard Library's executable specification [SpecFloat]
      (precision 53, emax 1024), so that [/], [*], [round], [min] on floats
      behave as CPython's do, overflow errors included.
    - Exceptions are an explicit [result] type.
    - Pillow is an external collaborator: its calls are the fields of a
      record [PIL], about which nothing is assumed.
    - The output directory is a finite map from file names to contents;
      standard output and standard error are a list of printed lines.
    - [main] is modelled from the namespace [parse_args] returns;
      [is_dir], [mkdir], [iterdir], [exists] and [print] do not raise;
      paths are POSIX paths, ordered as their names are. *)

From Stdlib Require Import ZArith Lia Bool List Ascii String.
From Stdlib Require Import SpecFloat.
From stdpp Require Import base strings gmap list sorting.

Local Open Scope Z_scope.

(** ** Exceptions *)

Inductive PyError :=
| ZeroDivisionError
| OverflowError
| ValueError
| PILError (msg : string).

Inductive result (A : Type) :=
| Ok (a : A)
| Raise (e : PyError).
Arguments Ok {A} a.
Arguments Raise {A} e.

Definition rbind {A B} (r : result A) (k : A -> result B) : result B :=
  match r with
  | Ok a => k a
  | Raise e => Raise e
  end.

Notation "x <-? r ;; k" := (rbind r (fun x => k))
  (at level 100, r at next level, right associativity).

(** ** Python numbers *)

Module PyFloat.

Definition prec : Z := 53.
Definition emax : Z := 1024.

Definition float := spec_float.

(** The literal [1.0]. *)
Definition one : float := S754_finite false 4503599627370496 (-52).

(** [float(n)] as done implicitly by [n * x]: nearest double, ties to
    even; [OverflowError] when [n] is too large for a double. *)
Definition of_int (n : Z) : result float :=
  match binary_normalize prec emax n 0 false with
  | S754_infinity _ => Raise OverflowError
  | f => Ok f
  end.

(** [a / b] on two ints: the correctly rounded quotient;
    [ZeroDivisionError] on [b = 0], [OverflowError] when the quotient is
    too large for a double. *)
Definition int_truediv (a b : Z) : result float :=
  if b =? 0 then Raise ZeroDivisionError
  else
    let sign := xorb (a <? 0) (b <? 0) in
    if a =? 0 then Ok (S754_zero sign)
    else
      let '(mz, ez, lz) := SFdiv_core_binary prec emax (Z.abs a) 0 (Z.abs b) 0 in
      match binary_round_aux prec emax sign mz ez lz with
      | S754_infinity _ => Raise OverflowError
      | f => Ok f
      end.

(** [x * y] on two floats: never raises, overflows to infinity. *)
Definition mul (x y : float) : float := SFmul prec emax x y.

(** [n * x] with [n] an int and [x] a float. *)
Definition int_mul (n : Z) (x : float) : result float :=
  fn <-? of_int n ;; Ok (mul fn x).

(** [x < y]. *)
Definition ltb (x y : float) : bool := SFltb x y.

(** [min(x, y)]: the second argument only when it is smaller. *)
Definition min (x y : float) : float := if ltb y x then y else x.

(** Nearest integer to [m * 2^e], ties to even. *)
Definition round_half_even (m : positive) (e : Z) : Z :=
  match e with
  | Z0 => Zpos m
  | Zpos _ => Zpos m * 2 ^ e
  | Zneg k =>
      let d := 2 ^ Zpos k in
      let q := Zpos m / d in
      let r := Zpos m mod d in
      match 2 * r ?= d with
      | Lt => q
      | Gt => q + 1
      | Eq => if Z.even q then q else q + 1
      end
  end.

(** [round(x)] with one argument: an int; [OverflowError] on an
    infinity, [ValueError] on a NaN. *)
Definition round (x : float) : result Z :=
  match x with
  | S754_zero _ => Ok 0
  | S754_infinity _ => Raise OverflowError
  | S754_nan => Raise ValueError
  | S754_finite s m e => Ok (cond_Zopp s (round_half_even m e))
  end.

End PyFloat.

(** [min(a, b)] and [max(a, b)] on ints. *)
Definition int_min (a b : Z) : Z := if b <? a then b else a.
Definition int_max (a b : Z) : Z := if b >? a then b else a.

(** ** SizeResolver: [get_target_size] *)

Definition get_target_size (original_size target_size : Z * Z)
    (keep_aspect_ratio no_upscale : bool) : result (Z * Z) :=
  let '(original_w, original_h) := original_size in
  let '(target_w, target_h) := target_size in
  if keep_aspect_ratio then
    if (original_w =? 0) || (original_h =? 0) then Ok original_size
    else
      scale_w <-? PyFloat.int_truediv target_w original_w ;;
      scale_h <-? PyFloat.int_truediv target_h original_h ;;
      let scale := PyFloat.min scale_w scale_h in
      let scale := if no_upscale then PyFloat.min scale PyFloat.one else scale in
      xw <-? PyFloat.int_mul original_w scale ;;
      rw <-? PyFloat.round xw ;;
      let resized_w := int_max 1 rw in
      xh <-? PyFloat.int_mul original_h scale ;;
      rh <-? PyFloat.round xh ;;
      let resized_h := int_max 1 rh in
      Ok (resized_w, resized_h)
  else
    let '(resized_w, resized_h) := (target_w, target_h) in
    let '(resized_w, resized_h) :=
      if no_upscale
      then (int_min original_w target_w, int_min original_h target_h)
      else (resized_w, resized_h) in
    Ok (resized_w, resized_h).

(** ** File names, as [pathlib] splits them *)

Local Open Scope string_scope.

(** [name.rfind('.')]: the index of the last dot, if there is one. *)
Fixpoint rfind_dot (name : string) : option nat :=
  match name with
  | EmptyString => None
  | String c rest =>
      match rfind_dot rest with
      | Some i => Some (S i)
      | None => if Ascii.eqb c "." then Some O else None
      end
  end.

(** A dot splits the name when it is neither its first nor its last
    character ([0 < i < len(name) - 1]). *)
Definition splits (name : string) (i : nat) : bool :=
  (0 <? i)%nat && (i <? String.length name - 1)%nat.

(** [Path.suffix] *)
Definition suffix (name : string) : string :=
  match rfind_dot name with
  | Some i =>
      if splits name i
      then substring i (String.length name - i) name
      else ""
  | None => ""
  end.

(** [Path.stem] *)
Definition stem (name : string) : string :=
  match rfind_dot name with
  | Some i => if splits name i then substring 0 i name else name
  | None => name
  end.

Definition lower_ascii (c : ascii) : ascii :=
  let n := nat_of_ascii c in
  if (65 <=? n)%nat && (n <=? 90)%nat then ascii_of_nat (n + 32) else c.

(** [str.lower], on the ASCII letters. *)
Fixpoint lower (s : string) : string :=
  match s with
  | EmptyString => EmptyString
  | String c rest => String (lower_ascii c) (lower rest)
  end.

Definition SUPPORTED_EXTENSIONS : list string := [".jpg"; ".jpeg"; ".png"].

Definition supported (ext : string) : bool :=
  existsb (String.eqb ext) SUPPORTED_EXTENSIONS.

(** ** The collaborators: Pillow, the two directories, the console *)

Definition bytes := list Byte.byte.

(** Values stored in the [save_kwargs] dict. *)
Inductive PyVal :=
| VStr (s : string)
| VInt (n : Z)
| VBool (b : bool)
| VBytes (b : bytes).

(** What [Image.save] did: it wrote [data] to the output path, or raised
    and left [left] at that path ([None]: no file). *)
Inductive SaveResult :=
| Saved (data : bytes)
| SaveFailed (e : PyError) (left : option bytes).

(** Pillow, as [process_image] uses it.  [pil_save img path kwargs old] is
    [img.save(path, **kwargs)] where [old] is what the path held. *)
Record PIL := {
  Img : Type;
  Image_open : bytes -> result Img;
  img_size : Img -> Z * Z;
  img_info_icc_profile : Img -> option bytes;
  exif_transpose : Img -> result Img;
  resize_lanczos : Img -> Z * Z -> result Img;
  pil_save : Img -> string -> gmap string PyVal -> option bytes -> SaveResult
}.

(** The Pillow calls of a run, in order. *)
Inductive Call :=
| CallOpen (input_name : string)
| CallExifTranspose (input_name : string)
| CallResize (input_name : string) (size : Z * Z)
| CallSave (output_path : string) (kwargs : gmap string PyVal).

(** An entry of the input directory. *)
Record DirEntry := {
  name : string;
  is_file : bool;
  content : bytes
}.

(** The lines printed, to standard output ([Out...]) and standard error
    ([Err...]). *)
Inductive Line :=
| ErrInputMissing
| OutNoImages
| OutSkip (output_path : string)
| OutOK (input_name output_name : string)
| ErrProcessing (input_name : string) (exc : PyError)
| OutSummary (processed skipped errors : nat).

Record World := {
  input_is_dir : bool;
  input_entries : list DirEntry;
  output_dir_exists : bool;
  output_files : gmap string bytes;
  console : list Line;
  pil_calls : list Call
}.

Definition print (l : Line) (w : World) : World :=
  {| input_is_dir := input_is_dir w;
     input_entries := input_entries w;
     output_dir_exists := output_dir_exists w;
     output_files := output_files w;
     console := console w ++ [l];
     pil_calls := pil_calls w |}.

Definition record_call (c : Call) (w : World) : World :=
  {| input_is_dir := input_is_dir w;
     input_entries := input_entries w;
     output_dir_exists := output_dir_exists w;
     output_files := output_files w;
     console := console w;
     pil_calls := pil_calls w ++ [c] |}.

Definition set_output_files (fs : gmap string bytes) (w : World) : World :=
  {| input_is_dir := input_is_dir w;
     input_entries := input_entries w;
     output_dir_exists := output_dir_exists w;
     output_files := fs;
     console := console w;
     pil_calls := pil_calls w |}.

(** [args.output_dir.mkdir(parents=True, exist_ok=True)] *)
Definition mkdir (w : World) : World :=
  {| input_is_dir := input_is_dir w;
     input_entries := input_entries w;
     output_dir_exists := true;
     output_files := output_files w;
     console := console w;
     pil_calls := pil_calls w |}.

(** [output_path.exists()] *)
Definition path_exists (w : World) (output_path : string) : bool :=
  bool_decide (is_Some (output_files w !! output_path)).

(** Code that changes the world and may raise. *)
Definition M (A : Type) : Type := World -> result A * World.

Definition mret {A} (a : A) : M A := fun w => (Ok a, w).

Definition mbind {A B} (m : M A) (k : A -> M B) : M B :=
  fun w =>
    match m w with
    | (Ok a, w') => k a w'
    | (Raise e, w') => (Raise e, w')
    end.

Notation "x <-! m ;; k" := (mbind m (fun x => k))
  (at level 100, m at next level, right associativity).

Definition lift {A} (r : result A) : M A := fun w => (r, w).

Definition called {A} (c : Call) (r : result A) : M A :=
  fun w => (r, record_call c w).

Definition do_save (pil : PIL) (img : Img pil) (output_path : string)
    (kwargs : gmap string PyVal) : M unit :=
  fun w =>
    let w := record_call (CallSave output_path kwargs) w in
    match pil_save pil img output_path kwargs (output_files w !! output_path) with
    | Saved data =>
        (Ok tt, set_output_files (<[output_path := data]> (output_files w)) w)
    | SaveFailed e (Some data) =>
        (Raise e, set_output_files (<[output_path := data]> (output_files w)) w)
    | SaveFailed e None =>
        (Raise e, set_output_files (delete output_path (output_files w)) w)
    end.

(** ** ImageTransformer: [process_image] *)

Definition process_image (pil : PIL) (input_path : DirEntry) (output_path : string)
    (target_size : Z * Z) (quality : Z)
    (keep_aspect_ratio no_upscale lossless : bool) : M unit :=
  img <-! called (CallOpen (name input_path)) (Image_open pil (content input_path)) ;;
  let icc_profile := img_info_icc_profile pil img in
  target <-! lift (get_target_size (img_size pil img) target_size
                     keep_aspect_ratio no_upscale) ;;
  transposed <-! called (CallExifTranspose (name input_path)) (exif_transpose pil img) ;;
  resized <-! called (CallResize (name input_path) target)
                (resize_lanczos pil transposed target) ;;
  let save_kwargs : gmap string PyVal :=
    <["method" := VInt 6]> (<["lossless" := VBool lossless]>
      (<["quality" := VInt quality]> (<["format" := VStr "WEBP"]> ∅))) in
  let save_kwargs :=
    match icc_profile with
    | Some profile => <["icc_profile" := VBytes profile]> save_kwargs
    | None => save_kwargs
    end in
  do_save pil resized output_path save_kwargs.

(** ** BatchRunner: [main] *)

(** The namespace [parse_args] returns; the two directories are the
    world's. *)
Record Namespace := {
  width : Z;
  height : Z;
  quality : Z;
  keep_aspect_ratio : bool;
  no_upscale : bool;
  lossless : bool;
  overwrite : bool
}.

(** [sorted]: paths of one directory compare as their names do. *)
Fixpoint insert_sorted (p : DirEntry) (l : list DirEntry) : list DirEntry :=
  match l with
  | [] => [p]
  | q :: rest =>
      if String.ltb (name q) (name p) then q :: insert_sorted p rest
      else p :: q :: rest
  end.

Definition sorted (l : list DirEntry) : list DirEntry :=
  foldr insert_sorted [] l.

Definition is_candidate (p : DirEntry) : bool :=
  is_file p && supported (lower (suffix (name p))).

Record Counters := {
  processed : nat;
  skipped : nat;
  errors : nat
}.

Definition output_name_of (input_path : DirEntry) : string :=
  stem (name input_path) ++ ".webp".

(** One turn of the [for input_path in files] loop. *)
Definition loop_body (pil : PIL) (args : Namespace) (st : Counters * World)
    (input_path : DirEntry) : Counters * World :=
  let '(c, w) := st in
  let output_name := output_name_of input_path in
  let output_path := output_name in
  if path_exists w output_path && negb (overwrite args) then
    ({| processed := processed c; skipped := skipped c + 1; errors := errors c |},
     print (OutSkip output_path) w)
  else
    match process_image pil input_path output_path (width args, height args)
            (quality args) (keep_aspect_ratio args) (no_upscale args)
            (lossless args) w with
    | (Ok _, w') =>
        ({| processed := processed c + 1; skipped := skipped c; errors := errors c |},
         print (OutOK (name input_path) output_name) w')
    | (Raise exc, w') =>
        ({| processed := processed c; skipped := skipped c; errors := errors c + 1 |},
         print (ErrProcessing (name input_path) exc) w')
    end.

Definition run_loop (pil : PIL) (args : Namespace) (files : list DirEntry)
    (st : Counters * World) : Counters * World :=
  fold_left (loop_body pil args) files st.

Definition candidates (w : World) : list DirEntry :=
  sorted (List.filter is_candidate (input_entries w)).

(** [main], after [parse_args]: the exit status and the world it leaves. *)
Definition main (pil : PIL) (args : Namespace) (w : World) : Z * World :=
  if negb (input_is_dir w) then (1%Z, print ErrInputMissing w)
  else
    let w := mkdir w in
    let files := candidates w in
    match files with
    | [] => (0%Z, print OutNoImages w)
    | _ =>
        let '(c, w) :=
          run_loop pil args files
            ({| processed := 0; skipped := 0; errors := 0 |}, w) in
        let w := print (OutSummary (processed c) (skipped c) (errors c)) w in
        (if (errors c =? 0)%nat then 0%Z else 1%Z, w)
    end.

Local Close Scope string_scope.

(** ** Outcomes, as the printed lines show them *)



(** [l] is the one line candidate [p] gets: processed, skipped or failed. *)
Definition outcome_line_of (p : DirEntry) (l : Line) : Prop :=
  l = OutOK (name p) (output_name_of p) \/
  l = OutSkip (output_name_of p) \/
  exists exc, l = ErrProcessing (name p) exc.

Definition is_failure (l : Line) : bool :=
  match l with
  | ErrProcessing _ _ => true
  | _ => false
  end.

Definition failed_count (lines : list Line) : nat :=
  length (List.filter is_failure lines).

(** A tiny Pillow, to run the model on: an image is its bytes, its width
    their number, its profile its first byte unless that is zero; an empty
    file does not open; nothing else fails. *)
Definition demo_pil : PIL :=
  {| Img := bytes;
     Image_open := fun b =>
       match b with
       | [] => Raise (PILError "cannot identify image file")
       | _ => Ok b
       end;
     img_size := fun b => (Z.of_nat (length b), 1);
     img_info_icc_profile := fun b =>
       match b with
       | Byte.x00 :: _ => None
       | c :: _ => Some [c]
       | [] => None
       end;
     exif_transpose := fun b => Ok b;
     resize_lanczos := fun b _ => Ok b;
     pil_save := fun b _ _ _ => Saved b |}.

Definition demo_args (ow : bool) : Namespace :=
  {| width := 400; height := 400; quality := 80;
     keep_aspect_ratio := true; no_upscale := true;
     lossless := false; overwrite := ow |}.

Definition demo_entry (n : string) (b : bytes) : DirEntry :=
  {| name := n; is_file := true; content := b |}.

Definition demo_world (entries : list DirEntry) (out : gmap string bytes) : World :=
  {| input_is_dir := true; input_entries := entries;
     output_dir_exists := false; output_files := out;
     console := []; pil_calls := [] |}.

(** A small directory to run the model on. *)
Definition a_jpg : DirEntry := demo_entry "a.jpg" [Byte.x01; Byte.x02].
Definition a_png : DirEntry := demo_entry "a.png" [Byte.x00; Byte.x03; Byte.x04].
Definition b_png : DirEntry := demo_entry "b.png" [].

Definition two_a : World := demo_world [a_png; b_png; a_jpg] ∅.
Definition a_done : World :=
  demo_world [a_png; b_png; a_jpg] {[ "a.webp"%string := [Byte.x09] ]}.
Definition no_counts : Counters := {| processed := 0; skipped := 0; errors := 0 |}.

(** What one call of [process_image] with output path [output_path]
    leaves as it was: everything but that path and the record of Pillow
    calls. *)
Definition same_elsewhere (output_path : string) (w w' : World) : Prop :=
  input_is_dir w' = input_is_dir w /\
  input_entries w' = input_entries w /\
  output_dir_exists w' = output_dir_exists w /\
  console w' = console w /\
  forall p, p <> output_path -> output_files w' !! p = output_files w !! p.

(** The three ways one turn of the loop can go, with the line it prints. *)
Inductive turn (pil : PIL) (args : Namespace) (st : Counters * World) (p : DirEntry)
  : Counters * World -> Line -> Prop :=
| turn_skip :
    path_exists (snd st) (output_name_of p) = true ->
    overwrite args = false ->
    turn pil args st p
      ({| processed := processed (fst st); skipped := skipped (fst st) + 1;
          errors := errors (fst st) |},
       print (OutSkip (output_name_of p)) (snd st))
      (OutSkip (output_name_of p))
| turn_ok w' :
    path_exists (snd st) (output_name_of p) && negb (overwrite args) = false ->
    process_image pil p (output_name_of p) (width args, height args)
      (quality args) (keep_aspect_ratio args) (no_upscale args) (lossless args)
      (snd st) = (Ok tt, w') ->
    turn pil args st p
      ({| processed := processed (fst st) + 1; skipped := skipped (fst st);
          errors := errors (fst st) |},
       print (OutOK (name p) (output_name_of p)) w')
      (OutOK (name p) (output_name_of p))
| turn_failed exc w' :
    path_exists (snd st) (output_name_of p) && negb (overwrite args) = false ->
    process_image pil p (output_name_of p) (width args, height args)
      (quality args) (keep_aspect_ratio args) (no_upscale args) (lossless args)
      (snd st) = (Raise exc, w') ->
    turn pil args st p
      ({| processed := processed (fst st); skipped := skipped (fst st);
          errors := errors (fst st) + 1 |},
       print (ErrProcessing (name p) exc) w')
      (ErrProcessing (name p) exc).

(** The world in which the loop of [main] reaches the candidate that
    follows [pre]: the directory is made, and the turns of [pre] are done. *)
Definition world_before (pil : PIL) (args : Namespace) (w : World)
    (pre : list DirEntry) : World :=
  snd (run_loop pil args pre (no_counts, mkdir w)).

(** In the world [w0], the file [p] is not skipped and its
    [process_image] raises. *)
Definition fails_in (pil : PIL) (args : Namespace) (w0 : World) (p : DirEntry) : Prop :=
  path_exists w0 (output_name_of p) && negb (overwrite args) = false /\
  exists exc w',
    process_image pil p (output_name_of p) (width args, height args)
      (quality args) (keep_aspect_ratio args) (no_upscale args) (lossless args) w0
    = (Raise exc, w').

(** Some candidate of the run fails during processing: when the loop
    reaches it, it is not skipped and its [process_image] raises. *)
Definition some_file_failed (pil : PIL) (args : Namespace) (w : World) : Prop :=
  exists pre p post,
    candidates w = pre ++ p :: post /\
    fails_in pil args (world_before pil args w pre) p.

(** The order [sorted] puts the entries in. *)
Definition name_le (a b : DirEntry) : Prop :=
  String.ltb (name b) (name a) = false.

(** [f] is a positive normal double with exponent [e]. *)
Definition is_normal (f : PyFloat.float) (e : Z) : Prop :=
  exists m, f = S754_finite false m e /\ Zpos (digits2_pos m) = 53.

(** What [parse_args] makes of the namespace [argparse] built from the
    command line: it returns it, or calls [parser.error]. *)
Inductive Parsed :=
| Accepted (args : Namespace)
| ParserError (message : string).

Definition parse_args (args : Namespace) : Parsed :=
  if (width args <=? 0) || (height args <=? 0)
  then ParserError "El ancho y el alto deben ser enteros positivos"
  else if negb ((0 <=? quality args) && (quality args <=? 100))
  then ParserError "La calidad debe estar entre 0 y 100"
  else Accepted args.

(** The Pillow calls [process_image] may make for one input. *)
Definition expected_call (pil : PIL) (args : Namespace) (p : DirEntry) (c : Call)
  : Prop :=
  match c with
  | CallOpen n => n = name p
  | CallExifTranspose n => n = name p
  | CallResize n size =>
      n = name p /\
      exists img,
        Image_open pil (content p) = Ok img /\
        get_target_size (img_size pil img) (width args, height args)
          (keep_aspect_ratio args) (no_upscale args) = Ok size
  | CallSave out kwargs =>
      out = output_name_of p /\
      kwargs !! "format"%string = Some (VStr "WEBP") /\
      kwargs !! "quality"%string = Some (VInt (quality args)) /\
      kwargs !! "lossless"%string = Some (VBool (lossless args)) /\
      kwargs !! "method"%string = Some (VInt 6)
  end.

Definition is_ok_line (l : Line) : bool :=
  match l with
  | OutOK _ _ => true
  | _ => false
  end.

Definition is_skip_line (l : Line) : bool :=
  match l with
  | OutSkip _ => true
  | _ => false
  end.

Definition ok_count (lines : list Line) : nat := length (List.filter is_ok_line lines).
Definition skip_count (lines : list Line) : nat := length (List.filter is_skip_line lines).

(** A stage of [process_image] before [save] raises [exc] for input [p]. *)
Definition fails_before_save (pil : PIL) (args : Namespace) (p : DirEntry)
    (exc : PyError) : Prop :=
  Image_open pil (content p) = Raise exc \/
  exists img,
    Image_open pil (content p) = Ok img /\
    (get_target_size (img_size pil img) (width args, height args)
       (keep_aspect_ratio args) (no_upscale args) = Raise exc \/
     exists target,
       get_target_size (img_size pil img) (width args, height args)
         (keep_aspect_ratio args) (no_upscale args) = Ok target /\
       (exif_transpose pil img = Raise exc \/
        exists transposed,
          exif_transpose pil img = Ok transposed /\
          resize_lanczos pil transposed target = Raise exc)).

Definition call_names (c : Call) : list string :=
  match c with
  | CallOpen n => [n]
  | _ => []
  end.

(** The inputs opened, in order. *)
Definition opened (calls : list Call) : list string := flat_map call_names calls.


Definition two_jpg_png : World := demo_world [a_png; a_jpg] ∅.
Definition upper_a_jpg : DirEntry := demo_entry "A.JPG" [Byte.x05].

Abbreviation prec := PyFloat.prec.
Abbreviation emax := PyFloat.emax.

(** * Properties *)

Example scenario_a : get_target_size (800, 600) (400, 400) true true = Ok (400, 300).
Proof. vm_compute. reflexivity. Qed.

Example scenario_b : get_target_size (200, 100) (400, 400) true true = Ok (200, 100).
Proof. vm_compute. reflexivity. Qed.

Example demo_run :
  let w := demo_world [demo_entry "b.png" [Byte.x01]; demo_entry "notes.txt" [];
                       demo_entry "a.JPG" []; demo_entry "a.png" [Byte.x02]] ∅ in
  let '(status, w') := main demo_pil (demo_args false) w in
  status = 1 /\
  console w' = [ErrProcessing "a.JPG" (PILError "cannot identify image file");
                OutOK "a.png" "a.webp"; OutOK "b.png" "b.webp"; OutSummary 2 0 1] /\
  output_files w' !! "a.webp"%string = Some [Byte.x02].
Proof. vm_compute. auto. Qed.

(** ** Binary digits *)

Lemma digits2_pos_log2 p : Zpos (digits2_pos p) = Z.log2 (Zpos p) + 1.
Proof.
  assert (Hsize : digits2_pos p = Pos.size p)
    by (induction p as [p IH|p IH|]; simpl; congruence).
  rewrite Hsize. destruct p; simpl; lia.
Qed.

Lemma Zdigits2_log2 m : 0 < m -> Zdigits2 m = Z.log2 m + 1.
Proof. destruct m as [|p|p]; try lia. intros _. apply digits2_pos_log2. Qed.

Lemma Zdigits2_bounds m :
  0 < m -> 2 ^ (Zdigits2 m - 1) <= m < 2 ^ Zdigits2 m.
Proof.
  intros Hm. rewrite Zdigits2_log2 by exact Hm.
  replace (Z.log2 m + 1 - 1) with (Z.log2 m) by lia.
  replace (Z.log2 m + 1) with (Z.succ (Z.log2 m)) by lia.
  apply Z.log2_spec, Hm.
Qed.

Lemma Zdigits2_pos m : 0 < m -> 0 < Zdigits2 m.
Proof.
  intros Hm. rewrite Zdigits2_log2 by exact Hm.
  pose proof (Z.log2_nonneg m). lia.
Qed.

(** [m] has exactly [k] digits when it lies in [[2^(k-1), 2^k)]. *)
Lemma Zdigits2_unique m k :
  0 < k -> 2 ^ (k - 1) <= m < 2 ^ k -> Zdigits2 m = k.
Proof.
  intros Hk Hm.
  assert (0 < m) by (pose proof (Z.pow_pos_nonneg 2 (k - 1)); lia).
  rewrite Zdigits2_log2 by assumption.
  rewrite (Z.log2_unique m (k - 1)); [lia | lia |].
  replace (Z.succ (k - 1)) with k by lia. exact Hm.
Qed.

Lemma Zdigits2_le m k : 0 < m -> m < 2 ^ k -> Zdigits2 m <= k.
Proof.
  intros Hm Hlt. rewrite Zdigits2_log2 by exact Hm.
  apply Z.log2_lt_pow2 in Hlt; [lia | exact Hm].
Qed.

Lemma Zdigits2_ge m k : 0 <= k -> 2 ^ k <= m -> k + 1 <= Zdigits2 m.
Proof.
  intros Hk Hle.
  assert (0 < m) by (pose proof (Z.pow_pos_nonneg 2 k); lia).
  rewrite Zdigits2_log2 by assumption.
  apply Z.log2_le_pow2 in Hle; [lia | assumption].
Qed.

(** ** Shifting a mantissa right *)

Lemma shr_1_m mrs : 0 <= shr_m mrs -> shr_m (shr_1 mrs) = shr_m mrs / 2.
Proof.
  destruct mrs as [m r s]. cbn [shr_m]. intros Hm.
  destruct m as [|[p|p|]|p]; cbn [shr_1 shr_m]; try lia; try reflexivity.
  - apply Z.div_unique with 1; lia.
  - apply Z.div_unique with 0; lia.
Qed.

Lemma iter_shr_1_m p : forall mrs,
  0 <= shr_m mrs -> shr_m (SpecFloat.iter_pos shr_1 p mrs) = shr_m mrs / 2 ^ Zpos p.
Proof.
  assert (Hnn : forall q mrs, 0 <= shr_m mrs ->
                  (shr_m (SpecFloat.iter_pos shr_1 q mrs) = shr_m mrs / 2 ^ Zpos q) ->
                  0 <= shr_m (SpecFloat.iter_pos shr_1 q mrs)).
  { intros q mrs H0 ->. apply Z.div_pos; [exact H0 | apply Z.pow_pos_nonneg; lia]. }
  induction p as [p IH|p IH|]; intros mrs Hm; simpl.
  - assert (H1 : 0 <= shr_m (shr_1 mrs))
      by (rewrite shr_1_m by exact Hm; apply Z.div_pos; lia).
    pose proof (IH _ H1) as E1. pose proof (Hnn _ _ H1 E1) as H2.
    rewrite (IH _ H2), E1, shr_1_m by exact Hm.
    rewrite !Z.div_div by (try apply Z.pow_pos_nonneg; lia).
    f_equal. replace (Zpos p~1) with (1 + Zpos p + Zpos p) by lia.
    rewrite !Z.pow_add_r by lia. lia.
  - pose proof (IH _ Hm) as E1. pose proof (Hnn _ _ Hm E1) as H2.
    rewrite (IH _ H2), E1.
    rewrite !Z.div_div by (try apply Z.pow_pos_nonneg; lia).
    f_equal. replace (Zpos p~0) with (Zpos p + Zpos p) by lia.
    rewrite Z.pow_add_r by lia. reflexivity.
  - rewrite shr_1_m by exact Hm. reflexivity.
Qed.

(** [shr] drops [n] low digits, and raises the exponent by as much. *)
Lemma shr_m_spec mrs e n :
  0 <= shr_m mrs -> 0 < n ->
  shr_m (fst (shr mrs e n)) = shr_m mrs / 2 ^ n /\ snd (shr mrs e n) = e + n.
Proof.
  intros Hm Hn. destruct n as [|p|p]; try lia. simpl.
  split; [apply iter_shr_1_m, Hm | reflexivity].
Qed.

Lemma shr_noop mrs e n : n <= 0 -> shr mrs e n = (mrs, e).
Proof. destruct n; try reflexivity. lia. Qed.

(** ** Rounding to binary64, away from the subnormal and overflow ranges *)

Lemma fexp_normal x : -1021 <= x -> fexp prec emax x = x - 53.
Proof. unfold fexp, emin, PyFloat.prec, PyFloat.emax. lia. Qed.

Lemma shr_record_of_loc_m m l : shr_m (shr_record_of_loc m l) = m.
Proof. destruct l as [|[]]; reflexivity. Qed.

Lemma round_nearest_even_cases m l :
  round_nearest_even m l = m \/ round_nearest_even m l = m + 1.
Proof.
  destruct l as [|[]]; simpl; auto. destruct (Z.even m); auto.
Qed.

Lemma pow2_pos n : 0 <= n -> 0 < 2 ^ n.
Proof. intros. apply Z.pow_pos_nonneg; lia. Qed.

Lemma Zdigits2_div_pow2 m n :
  0 < m -> 0 <= n < Zdigits2 m -> Zdigits2 (m / 2 ^ n) = Zdigits2 m - n.
Proof.
  intros Hm Hn. pose proof (Zdigits2_bounds m Hm) as [Hlo Hhi].
  pose proof (pow2_pos n ltac:(lia)) as Hp.
  apply Zdigits2_unique; [lia|]. split.
  - apply Z.div_le_lower_bound; [exact Hp|].
    rewrite <- Z.pow_add_r by lia.
    replace (n + (Zdigits2 m - n - 1)) with (Zdigits2 m - 1) by lia. exact Hlo.
  - apply Z.div_lt_upper_bound; [exact Hp|].
    rewrite <- Z.pow_add_r by lia.
    replace (n + (Zdigits2 m - n)) with (Zdigits2 m) by lia. exact Hhi.
Qed.

(** The first shift leaves exactly 53 digits. *)
Lemma shr_fexp_normal m e l mrs e' :
  0 < m -> 53 <= Zdigits2 m -> -1021 <= Zdigits2 m + e ->
  shr_fexp prec emax m e l = (mrs, e') ->
  0 < shr_m mrs /\ Zdigits2 (shr_m mrs) = 53 /\ e' = Zdigits2 m + e - 53.
Proof.
  intros Hm Hd Hlo. unfold shr_fexp. rewrite fexp_normal by exact Hlo.
  replace (Zdigits2 m + e - 53 - e) with (Zdigits2 m - 53) by lia.
  destruct (Z.eq_dec (Zdigits2 m) 53) as [E|E].
  - rewrite E, shr_noop by lia. intros [= <- <-].
    rewrite shr_record_of_loc_m. lia.
  - intros Hshr.
    destruct (shr_m_spec (shr_record_of_loc m l) e (Zdigits2 m - 53)) as [H1 H2];
      [rewrite shr_record_of_loc_m; lia | lia |].
    rewrite Hshr in H1, H2. simpl in H1, H2.
    rewrite shr_record_of_loc_m in H1.
    rewrite H1, H2, Zdigits2_div_pow2 by lia.
    split; [|lia].
    apply Z.div_str_pos. split; [apply pow2_pos; lia|].
    pose proof (Zdigits2_bounds m Hm) as [Hb _].
    eapply Z.le_trans; [|exact Hb]. apply Z.pow_le_mono_r; lia.
Qed.

(** A mantissa of at least 53 digits whose value lies in the normal range
    rounds to a normal double, in the same binade or at the start of the
    next. *)
Lemma binary_round_aux_normal sx mx ex lx :
  0 < mx -> 53 <= Zdigits2 mx -> -1021 <= Zdigits2 mx + ex <= 1023 ->
  exists m e,
    binary_round_aux prec emax sx mx ex lx = S754_finite sx m e /\
    Zpos (digits2_pos m) = 53 /\
    Zdigits2 mx + ex - 53 <= e <= Zdigits2 mx + ex - 52.
Proof.
  intros Hm Hd [Hlo Hhi]. unfold binary_round_aux.
  destruct (shr_fexp prec emax mx ex lx) as [mrs1 e1] eqn:E1.
  apply shr_fexp_normal in E1 as (Hm1 & Hd1 & He1); try assumption.
  set (m1 := shr_m mrs1) in *.
  pose proof (Zdigits2_bounds m1 Hm1) as Hb1. rewrite Hd1 in Hb1.
  change (2 ^ (53 - 1)) with 4503599627370496 in Hb1.
  change (2 ^ 53) with 9007199254740992 in Hb1.
  set (m1r := round_nearest_even m1 (loc_of_shr_record mrs1)).
  assert (Hr : m1r = m1 \/ m1r = m1 + 1) by apply round_nearest_even_cases.
  destruct (Z.eq_dec m1r 9007199254740992) as [Etop|Etop].
  - (* the mantissa rounded up to 2^53: one more shift *)
    rewrite Etop. unfold shr_fexp. change (Zdigits2 9007199254740992) with 54.
    rewrite fexp_normal by lia.
    replace (54 + e1 - 53 - e1) with 1 by lia. simpl.
    replace (e1 + 1 <=? emax - prec) with true
      by (symmetry; apply Z.leb_le; unfold PyFloat.emax, PyFloat.prec; lia).
    do 2 eexists. split; [reflexivity|]. simpl. lia.
  - assert (Hd1r : Zdigits2 m1r = 53) by (apply Zdigits2_unique; simpl; lia).
    unfold shr_fexp. rewrite Hd1r, fexp_normal by lia.
    rewrite shr_noop by lia. simpl.
    destruct m1r as [|p|p] eqn:Ep; try lia.
    replace (e1 <=? emax - prec) with true
      by (symmetry; apply Z.leb_le; unfold PyFloat.emax, PyFloat.prec; lia).
    do 2 eexists. split; [reflexivity|]. simpl in Hd1r. lia.
Qed.

(** ** [a / b] on positive ints *)

Lemma Zdigits2_quotient a b s :
  0 < a -> 0 < b -> 0 <= s -> 1 <= Zdigits2 a - Zdigits2 b + s ->
  Zdigits2 a - Zdigits2 b + s <= Zdigits2 (a * 2 ^ s / b)
    <= Zdigits2 a - Zdigits2 b + s + 1.
Proof.
  intros Ha Hb Hs Hk.
  pose proof (Zdigits2_bounds a Ha) as [Halo Hahi].
  pose proof (Zdigits2_bounds b Hb) as [Hblo Hbhi].
  pose proof (Zdigits2_pos a Ha). pose proof (Zdigits2_pos b Hb).
  pose proof (pow2_pos s Hs) as Hps.
  set (da := Zdigits2 a) in *. set (db := Zdigits2 b) in *.
  assert (Hlow : 2 ^ (da - db + s - 1) <= a * 2 ^ s / b).
  { apply Z.div_le_lower_bound; [exact Hb|].
    pose proof (pow2_pos (da - db + s - 1) ltac:(lia)) as Hpk.
    apply Z.le_trans with (2 ^ db * 2 ^ (da - db + s - 1)); [nia|].
    rewrite <- Z.pow_add_r by lia.
    replace (db + (da - db + s - 1)) with (da - 1 + s) by lia.
    rewrite Z.pow_add_r by lia. nia. }
  assert (Hq : 0 < a * 2 ^ s / b).
  { pose proof (pow2_pos (da - db + s - 1) ltac:(lia)). lia. }
  split.
  - assert (0 <= da - db + s - 1) as Hk' by lia.
    pose proof (Zdigits2_ge _ _ Hk' Hlow). lia.
  - apply Zdigits2_le; [exact Hq|].
    apply Z.div_lt_upper_bound; [exact Hb|].
    pose proof (pow2_pos (da - db + s + 1) ltac:(lia)) as Hpk.
    apply Z.lt_le_trans with (2 ^ (db - 1) * 2 ^ (da - db + s + 1)); [|nia].
    rewrite <- Z.pow_add_r by lia.
    replace (db - 1 + (da - db + s + 1)) with (da + s) by lia.
    rewrite Z.pow_add_r by lia. nia.
Qed.

Lemma Zdigits2_quotient_ge a b s :
  0 < b -> b <= a -> 0 <= s -> s + 1 <= Zdigits2 (a * 2 ^ s / b).
Proof.
  intros Hb Hab Hs. apply Zdigits2_ge; [exact Hs|].
  apply Z.div_le_lower_bound; [exact Hb|].
  pose proof (pow2_pos s Hs). nia.
Qed.

Lemma shifted_mantissa a s :
  0 <= s ->
  match s with
  | Z0 => a
  | Zpos _ => Z.shiftl a s
  | Zneg _ => 0
  end = a * 2 ^ s.
Proof.
  intros Hs. destruct s as [|p|p]; try lia.
  apply Z.shiftl_mul_pow2. lia.
Qed.

(** The quotient of two positive ints whose sizes are not too far apart
    is a normal double [m * 2^e]; [d] is the size of the exact quotient. *)
Lemma int_truediv_normal a b :
  0 < a -> 0 < b -> -1021 <= Zdigits2 a - Zdigits2 b <= 1022 ->
  exists m e d,
    PyFloat.int_truediv a b = Ok (S754_finite false m e) /\
    Zpos (digits2_pos m) = 53 /\
    d - 53 <= e <= d - 52 /\
    Zdigits2 a - Zdigits2 b <= d <= Zdigits2 a - Zdigits2 b + 1 /\
    (b <= a -> 1 <= d).
Proof.
  intros Ha Hb Hd. unfold PyFloat.int_truediv.
  replace (b =? 0) with false by (symmetry; apply Z.eqb_neq; lia).
  replace (a =? 0) with false by (symmetry; apply Z.eqb_neq; lia).
  replace (a <? 0) with false by (symmetry; apply Z.ltb_ge; lia).
  replace (b <? 0) with false by (symmetry; apply Z.ltb_ge; lia).
  rewrite !Z.abs_eq by lia. cbn [xorb].
  unfold SFdiv_core_binary. rewrite !Z.add_0_r, !Z.sub_0_r.
  rewrite fexp_normal by lia.
  set (e' := Z.min (Zdigits2 a - Zdigits2 b - 53) 0).
  set (s := 0 - e').
  assert (Hs : 0 <= s) by lia.
  assert (Hm' : match s with
                | Z0 => a
                | Zpos _ => Z.shiftl a s
                | Zneg _ => 0
                end = a * 2 ^ s).
  { apply shifted_mantissa, Hs. }
  rewrite Hm'.
  pose proof (Zdigits2_quotient a b s Ha Hb Hs ltac:(lia)) as Hq.
  assert (Hqdiv : fst (Z.div_eucl (a * 2 ^ s) b) = a * 2 ^ s / b) by reflexivity.
  destruct (Z.div_eucl (a * 2 ^ s) b) as [q r]. simpl in Hqdiv. subst q.
  assert (Hq0 : 0 <= a * 2 ^ s / b)
    by (apply Z.div_pos; [pose proof (pow2_pos s Hs); nia | exact Hb]).
  remember (a * 2 ^ s / b) as q eqn:Eq.
  assert (Hqpos : 0 < q).
  { destruct q as [|p|p]; simpl in Hq; lia. }
  destruct (binary_round_aux_normal false q e' (new_location b r) Hqpos)
    as (m & e & Hr & Hdm & He); [lia | lia |].
  rewrite Hr. exists m, e, (Zdigits2 q + e').
  repeat split; try lia; try assumption.
  intros Hab. pose proof (Zdigits2_quotient_ge a b s Hb Hab Hs) as Hge.
  rewrite <- Eq in Hge. lia.
Qed.

(** ** [float(n)] on a positive int *)

Lemma Zdigits2_mul_pow2 m n :
  0 < m -> 0 <= n -> Zdigits2 (m * 2 ^ n) = Zdigits2 m + n.
Proof.
  intros Hm Hn. pose proof (pow2_pos n Hn).
  rewrite !Zdigits2_log2 by nia.
  rewrite Z.log2_mul_pow2 by lia. lia.
Qed.

Lemma iter_xO_pow2 p d : Zpos (Pos.iter xO p d) = Zpos p * 2 ^ Zpos d.
Proof.
  change (Pos.iter xO p d) with (shift_pos d p).
  rewrite shift_pos_correct. change (2 ^ Zpos d) with (Z.pow_pos 2 d).
  unfold Zpower_pos. lia.
Qed.

(** What [binary_round] hands to [binary_round_aux]: the same value, on
    at least 53 digits. *)
Lemma shl_align_normal p :
  let '(mz, ez) := shl_align p 0 (fexp prec emax (Zpos (digits2_pos p) + 0)) in
  53 <= Zdigits2 (Zpos mz) /\
  Zdigits2 (Zpos mz) + ez = Zdigits2 (Zpos p) /\
  Zpos mz = Zpos p * 2 ^ (- ez) /\ ez <= 0 /\
  (Zdigits2 (Zpos p) <= 53 -> Zdigits2 (Zpos mz) = 53).
Proof.
  pose proof (Zdigits2_pos (Zpos p) ltac:(lia)) as Hd. simpl in Hd.
  rewrite Z.add_0_r, fexp_normal by lia.
  unfold shl_align.
  destruct (Zpos (digits2_pos p) - 53 - 0) as [|q|q] eqn:E.
  - simpl. lia.
  - simpl. lia.
  - assert (Hq : Zpos q = 53 - Zpos (digits2_pos p)) by lia.
    rewrite iter_xO_pow2, Zdigits2_mul_pow2 by lia. simpl Zdigits2.
    replace (- (Zpos (digits2_pos p) - 53)) with (Zpos q) by lia.
    repeat split; lia.
Qed.

(** A mantissa of exactly 53 digits is its own rounding. *)
Lemma binary_round_aux_exact s m e :
  Zpos (digits2_pos m) = 53 -> -1074 <= e <= 971 ->
  binary_round_aux prec emax s (Zpos m) e loc_Exact = S754_finite s m e.
Proof.
  intros Hd He. unfold binary_round_aux, shr_fexp. simpl Zdigits2.
  assert (Hn : fexp prec emax (Zpos (digits2_pos m) + e) - e = 0)
    by (rewrite Hd; unfold fexp, emin, PyFloat.prec, PyFloat.emax; lia).
  rewrite Hn. simpl. rewrite Hn. simpl.
  replace (e <=? emax - prec) with true
    by (symmetry; apply Z.leb_le; unfold PyFloat.emax, PyFloat.prec; lia).
  reflexivity.
Qed.

Lemma of_int_normal n :
  0 < n -> Zdigits2 n <= 1023 ->
  exists m e,
    PyFloat.of_int n = Ok (S754_finite false m e) /\
    Zpos (digits2_pos m) = 53 /\
    Zdigits2 n - 53 <= e <= Zdigits2 n - 52.
Proof.
  intros Hn Hd. destruct n as [|p|p]; try lia.
  unfold PyFloat.of_int, binary_normalize, binary_round.
  pose proof (shl_align_normal p) as Hal.
  destruct (shl_align p 0 _) as [mz ez].
  destruct Hal as (H53 & Hsame & _ & _ & _).
  pose proof (Zdigits2_pos (Zpos p) ltac:(lia)).
  destruct (binary_round_aux_normal false (Zpos mz) ez loc_Exact)
    as (m & e & -> & Hdm & He); try lia.
  exists m, e. repeat split; try assumption; lia.
Qed.

Lemma round_exact n m e :
  0 < n -> e <= 0 -> Zpos m = n * 2 ^ (- e) ->
  PyFloat.round (S754_finite false m e) = Ok n.
Proof.
  intros Hn He Hm. unfold PyFloat.round, PyFloat.round_half_even. simpl cond_Zopp.
  f_equal. destruct e as [|k|k]; try lia.
  change (- Zneg k) with (Zpos k) in Hm.
  pose proof (pow2_pos (Zpos k) ltac:(lia)) as Hp.
  rewrite Hm, Z.div_mul, Z.mod_mul by lia.
  assert (E : (2 * 0 ?= 2 ^ Zpos k) = Lt) by (apply Z.compare_lt_iff; lia).
  rewrite E. reflexivity.
Qed.

(** An int of at most 53 bits is a double, and [round] gives it back. *)
Lemma of_int_small n :
  0 < n <= 2 ^ 53 ->
  exists m e,
    PyFloat.of_int n = Ok (S754_finite false m e) /\
    Zpos (digits2_pos m) = 53 /\ -52 <= e <= 1 /\
    PyFloat.round (S754_finite false m e) = Ok n.
Proof.
  intros [Hn Hle]. destruct (Z.eq_dec n (2 ^ 53)) as [->|Hne].
  { do 2 eexists. split; [vm_compute; reflexivity|].
    repeat split; vm_compute; congruence. }
  destruct n as [|p|p]; try lia.
  assert (Hd : Zdigits2 (Zpos p) <= 53) by (apply Zdigits2_le; lia).
  pose proof (Zdigits2_pos (Zpos p) ltac:(lia)) as Hd0.
  unfold PyFloat.of_int, binary_normalize, binary_round.
  pose proof (shl_align_normal p) as Hal.
  destruct (shl_align p 0 _) as [mz ez].
  destruct Hal as (_ & Hsame & Hval & Hez & H53). specialize (H53 Hd).
  simpl Zdigits2 in *.
  rewrite binary_round_aux_exact by lia.
  exists mz, ez. repeat split; try lia.
  apply round_exact; [lia | exact Hez | exact Hval].
Qed.

(** ** Products and minima of normal doubles *)

Lemma shr_1_even k :
  0 <= k ->
  shr_1 {| shr_m := 2 * k; shr_r := false; shr_s := false |}
  = {| shr_m := k; shr_r := false; shr_s := false |}.
Proof. destruct k as [|q|q]; try lia; reflexivity. Qed.

Lemma iter_shr_1_exact p : forall m,
  0 <= m ->
  SpecFloat.iter_pos shr_1 p
    {| shr_m := m * 2 ^ Zpos p; shr_r := false; shr_s := false |}
  = {| shr_m := m; shr_r := false; shr_s := false |}.
Proof.
  induction p as [p IH|p IH|]; intros m Hm; cbn [SpecFloat.iter_pos].
  - pose proof (pow2_pos (Zpos p) ltac:(lia)) as Hp.
    replace (m * 2 ^ Zpos p~1) with (2 * (m * 2 ^ Zpos p * 2 ^ Zpos p)).
    + rewrite shr_1_even, IH, IH by nia. reflexivity.
    + replace (Zpos p~1) with (1 + Zpos p + Zpos p) by lia.
      rewrite !Z.pow_add_r by lia. lia.
  - pose proof (pow2_pos (Zpos p) ltac:(lia)) as Hp.
    replace (m * 2 ^ Zpos p~0) with (m * 2 ^ Zpos p * 2 ^ Zpos p).
    + rewrite IH, IH by nia. reflexivity.
    + replace (Zpos p~0) with (Zpos p + Zpos p) by lia.
      rewrite !Z.pow_add_r by lia. lia.
  - replace (m * 2 ^ 1) with (2 * m) by lia. apply shr_1_even, Hm.
Qed.

(** A mantissa of 53 digits followed by zeros rounds to itself. *)
Lemma binary_round_aux_shifted s m e k :
  Zpos (digits2_pos m) = 53 -> -1021 <= e <= 971 ->
  binary_round_aux prec emax s (Zpos m * 2 ^ Zpos k) (e - Zpos k) loc_Exact
  = S754_finite s m e.
Proof.
  intros Hd He. unfold binary_round_aux, shr_fexp.
  rewrite Zdigits2_mul_pow2 by lia. simpl Zdigits2. rewrite Hd.
  rewrite fexp_normal by lia.
  replace (53 + Zpos k + (e - Zpos k) - 53 - (e - Zpos k)) with (Zpos k) by lia.
  cbn [shr shr_record_of_loc].
  rewrite iter_shr_1_exact by lia.
  cbn [shr_m loc_of_shr_record round_nearest_even Zdigits2]. rewrite Hd.
  rewrite fexp_normal by lia.
  replace (53 + (e - Zpos k + Zpos k) - 53 - (e - Zpos k + Zpos k)) with 0 by lia.
  cbn [shr shr_record_of_loc shr_m].
  replace (e - Zpos k + Zpos k <=? emax - prec) with true
    by (symmetry; apply Z.leb_le; unfold PyFloat.emax, PyFloat.prec; lia).
  f_equal. lia.
Qed.

(** Multiplying a normal double by [1.0] changes nothing. *)
Lemma mul_one_exact m e :
  Zpos (digits2_pos m) = 53 -> -1021 <= e <= 971 ->
  PyFloat.mul (S754_finite false m e) PyFloat.one = S754_finite false m e.
Proof.
  intros Hd He. unfold PyFloat.mul, SFmul, PyFloat.one. cbn [xorb].
  rewrite Pos2Z.inj_mul.
  replace (Zpos 4503599627370496) with (2 ^ Zpos 52) by (vm_compute; reflexivity).
  replace (e + -52) with (e - Zpos 52) by lia.
  apply binary_round_aux_shifted; assumption.
Qed.

Lemma Zdigits2_mul a b :
  0 < a -> 0 < b ->
  Zdigits2 a + Zdigits2 b - 1 <= Zdigits2 (a * b) <= Zdigits2 a + Zdigits2 b.
Proof.
  intros Ha Hb. rewrite !Zdigits2_log2 by nia.
  pose proof (Z.log2_mul_below a b Ha Hb).
  pose proof (Z.log2_mul_above a b ltac:(lia) ltac:(lia)). lia.
Qed.

(** The product of two normal doubles whose exponents stay in range is
    finite. *)
Lemma mul_normal fx fy ex ey :
  is_normal fx ex -> is_normal fy ey ->
  -1126 <= ex + ey <= 917 ->
  exists m e, PyFloat.mul fx fy = S754_finite false m e.
Proof.
  intros (mx & -> & Hdx) (my & -> & Hdy) He.
  unfold PyFloat.mul, SFmul. cbn [xorb].
  pose proof (Zdigits2_mul (Zpos mx) (Zpos my) ltac:(lia) ltac:(lia)) as Hd.
  simpl Zdigits2 in Hd. rewrite Hdx, Hdy in Hd.
  destruct (binary_round_aux_normal false (Zpos (mx * my)) (ex + ey) loc_Exact)
    as (m & e & -> & _ & _); simpl Zdigits2; try lia.
  exists m, e. reflexivity.
Qed.

(** [min] of two normal doubles is one of them, with the smaller exponent. *)
Lemma min_normal f1 f2 e1 e2 :
  is_normal f1 e1 -> is_normal f2 e2 ->
  is_normal (PyFloat.min f1 f2) (Z.min e1 e2).
Proof.
  intros (m1 & -> & Hd1) (m2 & -> & Hd2).
  unfold PyFloat.min, PyFloat.ltb, SFltb, SFcompare.
  destruct (Z.compare_spec e2 e1) as [->|Hlt|Hgt].
  - rewrite Z.min_id.
    destruct (Pos.compare_cont Eq m2 m1); [exists m1 | exists m2 | exists m1]; auto.
  - rewrite Z.min_r by lia. exists m2; auto.
  - rewrite Z.min_l by lia. exists m1; auto.
Qed.

(** A normal double that is at least [1.0] is brought down to [1.0]. *)
Lemma min_one_above f e :
  is_normal f e -> -52 <= e -> PyFloat.min f PyFloat.one = PyFloat.one.
Proof.
  intros (m & -> & Hd) He.
  unfold PyFloat.min, PyFloat.ltb, SFltb, SFcompare, PyFloat.one.
  destruct (Z.compare_spec (-52) e) as [Heq|Hlt|Hgt].
  - subst e.
    change (PosDef.Pos.compare_cont Eq 4503599627370496 m)
      with (Pos.compare 4503599627370496 m).
    destruct (Pos.compare_spec 4503599627370496 m) as [E|E|E].
    + subst m. reflexivity.
    + reflexivity.
    + exfalso.
      assert (Hm0 : 0 < Zpos m) by reflexivity.
      pose proof (Zdigits2_bounds (Zpos m) Hm0) as [Hlo _].
      change (Zdigits2 (Zpos m)) with (Zpos (digits2_pos m)) in Hlo.
      rewrite Hd in Hlo.
      change (2 ^ (53 - 1)) with 4503599627370496 in Hlo.
      apply Pos2Z.pos_lt_pos in E. lia.
  - reflexivity.
  - exfalso. lia.
Qed.

Lemma is_normal_one : is_normal PyFloat.one (-52).
Proof. eexists. split; reflexivity. Qed.

(** ** SizeResolver without the aspect lock *)

Lemma int_min_spec a b : int_min a b = Z.min a b.
Proof. unfold int_min. destruct (Z.ltb_spec b a); lia. Qed.

Lemma int_max_spec a b : int_max a b = Z.max a b.
Proof. unfold int_max. rewrite Z.gtb_ltb. destruct (Z.ltb_spec a b); lia. Qed.

(** C1, as stated, fails: a zero-width original is not passed through when
    the aspect ratio is not kept; the result is the target, or the
    per-axis minimum under [no_upscale]. *)
Lemma zero_area_not_passed_through_without_aspect_lock :
  get_target_size (0, 5) (10, 10) false false = Ok (10, 10) /\
  get_target_size (0, 5) (10, 3) false true = Ok (0, 3).
Proof. split; reflexivity. Qed.

(** C1, amended: when the aspect ratio is kept, an original with a zero
    width or a zero height is returned unchanged, whatever the target and
    whatever [no_upscale]. *)
Theorem zero_area_passes_through_with_aspect_lock
    (original target : Z * Z) (no_upscale : bool) :
  fst original = 0 \/ snd original = 0 ->
  get_target_size original target true no_upscale = Ok original.
Proof.
  destruct original as [ow oh], target as [tw th]; simpl; intros Hz.
  assert ((ow =? 0) || (oh =? 0) = true) as ->; [|reflexivity].
  apply orb_true_iff. rewrite !Z.eqb_eq. exact Hz.
Qed.

Lemma zero_area_passes_through_with_aspect_lock_witness :
  (fst (0, 5) = 0 \/ snd (0, 5) = 0) /\
  get_target_size (0, 5) (10, 10) true false = Ok (0, 5).
Proof.
  split; [left; reflexivity|].
  apply (zero_area_passes_through_with_aspect_lock (0, 5) (10, 10) false).
  left; reflexivity.
Defined.

(** C5: without the aspect lock and with [no_upscale], each axis is the
    minimum of the original's and the target's. *)
Theorem no_upscale_clamps_each_axis (ow oh tw th : Z) :
  get_target_size (ow, oh) (tw, th) false true = Ok (Z.min ow tw, Z.min oh th).
Proof. simpl. rewrite !int_min_spec. reflexivity. Qed.

(** C6: without the aspect lock and without [no_upscale], the result is
    the target, whatever the original. *)
Theorem fixed_target_verbatim (original target : Z * Z) :
  get_target_size original target false false = Ok target.
Proof. destruct original, target. reflexivity. Qed.

(** C2, as stated, fails: a zero-area original is passed through under the
    aspect lock, and clamps an axis to zero under [no_upscale] alone; a
    zero target is returned as it is without the aspect lock; and for
    dimensions too large for a double nothing is returned at all. *)
Lemma resolved_dimension_can_be_zero :
  get_target_size (0, 5) (10, 10) true false = Ok (0, 5) /\
  get_target_size (0, 5) (10, 10) false true = Ok (0, 5) /\
  get_target_size (5, 5) (0, 7) false false = Ok (0, 7) /\
  get_target_size (1, 1) (2 ^ 1024, 1) true false = Raise OverflowError.
Proof. repeat split; vm_compute; reflexivity. Qed.

(** C4, as stated, fails: past 2^53 an int is no longer a double, and
    [round(original_w * 1.0)] is not [original_w]; and a target too large
    for a double raises. *)
Lemma huge_original_not_returned_exactly :
  get_target_size (2 ^ 53 + 1, 1) (2 ^ 53 + 1, 1) true true = Ok (2 ^ 53, 1) /\
  get_target_size (1, 1) (2 ^ 1024, 1) true true = Raise OverflowError.
Proof. split; vm_compute; reflexivity. Qed.

(** ** SizeResolver under the aspect lock *)

Lemma Zdigits2_mono a b : 0 < a -> a <= b -> Zdigits2 a <= Zdigits2 b.
Proof.
  intros Ha Hab. rewrite !Zdigits2_log2 by lia.
  pose proof (Z.log2_le_mono a b Hab). lia.
Qed.

Lemma int_truediv_is_normal a b :
  0 < a -> 0 < b -> -1021 <= Zdigits2 a - Zdigits2 b <= 1022 ->
  exists f e,
    PyFloat.int_truediv a b = Ok f /\ is_normal f e /\
    Zdigits2 a - Zdigits2 b - 53 <= e <= Zdigits2 a - Zdigits2 b - 51 /\
    (b <= a -> -52 <= e).
Proof.
  intros Ha Hb Hd.
  destruct (int_truediv_normal a b Ha Hb Hd) as (m & e & d & Hq & Hm & He & Hdd & Hge).
  exists (S754_finite false m e), e.
  split; [exact Hq|]. split; [exists m; auto|]. split; [lia|].
  intros Hab. specialize (Hge Hab). lia.
Qed.

Lemma of_int_is_normal n :
  0 < n -> Zdigits2 n <= 1023 ->
  exists f e,
    PyFloat.of_int n = Ok f /\ is_normal f e /\
    Zdigits2 n - 53 <= e <= Zdigits2 n - 52.
Proof.
  intros Hn Hd. destruct (of_int_normal n Hn Hd) as (m & e & Hf & Hm & He).
  exists (S754_finite false m e), e.
  split; [exact Hf|]. split; [exists m; auto | lia].
Qed.

(** [round(n * scale)] returns, for a positive int and a normal scale
    whose product stays in range. *)
Lemma scaled_axis_returns n scale es :
  0 < n -> Zdigits2 n <= 1023 -> is_normal scale es ->
  -1126 <= Zdigits2 n - 53 + es -> Zdigits2 n - 52 + es <= 917 ->
  exists r, (x <-? PyFloat.int_mul n scale ;; PyFloat.round x) = Ok r.
Proof.
  intros Hn Hd Hs Hlo Hhi.
  destruct (of_int_is_normal n Hn Hd) as (fn & en & Hfn & Hnorm & Hen).
  unfold PyFloat.int_mul. rewrite Hfn. simpl.
  destruct (mul_normal fn scale en es Hnorm Hs ltac:(lia)) as (m & e & ->).
  simpl. eauto.
Qed.

Lemma int_max_one_le r : 1 <= int_max 1 r.
Proof. rewrite int_max_spec. lia. Qed.

Lemma digits_below_pow2 n k : 0 < n -> n < 2 ^ k -> Zdigits2 n <= k.
Proof. apply Zdigits2_le. Qed.

(** Under the aspect lock, the four-dimension resolver returns whenever
    the dimensions are positive and below 2^1000. *)
Lemma aspect_locked_returns ow oh tw th no_upscale :
  0 < ow < 2 ^ 1000 -> 0 < oh < 2 ^ 1000 ->
  0 < tw < 2 ^ 1000 -> 0 < th < 2 ^ 1000 ->
  exists w h, get_target_size (ow, oh) (tw, th) true no_upscale = Ok (w, h).
Proof.
  intros [How Bow] [Hoh Boh] [Htw Btw] [Hth Bth].
  pose proof (digits_below_pow2 _ _ How Bow) as Dow.
  pose proof (digits_below_pow2 _ _ Hoh Boh) as Doh.
  pose proof (digits_below_pow2 _ _ Htw Btw) as Dtw.
  pose proof (digits_below_pow2 _ _ Hth Bth) as Dth.
  pose proof (Zdigits2_pos _ How). pose proof (Zdigits2_pos _ Hoh).
  pose proof (Zdigits2_pos _ Htw). pose proof (Zdigits2_pos _ Hth).
  unfold get_target_size.
  replace ((ow =? 0) || (oh =? 0)) with false
    by (symmetry; apply orb_false_iff; split; apply Z.eqb_neq; lia).
  destruct (int_truediv_is_normal tw ow Htw How ltac:(lia))
    as (sw & ew & -> & Nw & Hew & _).
  destruct (int_truediv_is_normal th oh Hth Hoh ltac:(lia))
    as (sh & eh & -> & Nh & Heh & _).
  cbn [rbind].
  pose proof (min_normal sw sh ew eh Nw Nh) as N0.
  set (scale0 := PyFloat.min sw sh) in *.
  assert (Ns : exists es,
             is_normal (if no_upscale then PyFloat.min scale0 PyFloat.one else scale0) es /\
             Z.min (Z.min ew eh) (-52) <= es <= Z.min ew eh).
  { destruct no_upscale.
    - exists (Z.min (Z.min ew eh) (-52)). split; [|lia].
      apply min_normal; [exact N0 | apply is_normal_one].
    - exists (Z.min ew eh). split; [exact N0 | lia]. }
  destruct Ns as (es & Ns & Hes).
  set (scale := if no_upscale then PyFloat.min scale0 PyFloat.one else scale0) in *.
  destruct (scaled_axis_returns ow scale es How ltac:(lia) Ns ltac:(lia) ltac:(lia))
    as [rw Hrw].
  destruct (scaled_axis_returns oh scale es Hoh ltac:(lia) Ns ltac:(lia) ltac:(lia))
    as [rh Hrh].
  unfold rbind in Hrw, Hrh.
  destruct (PyFloat.int_mul ow scale) as [xw|]; [|discriminate].
  destruct (PyFloat.int_mul oh scale) as [xh|]; [|discriminate].
  cbn [rbind]. rewrite Hrw. cbn [rbind]. rewrite Hrh. cbn [rbind].
  eauto.
Qed.

(** C2, amended: for positive original and target dimensions, whatever
    the two flags, every dimension the resolver returns is at least 1; and
    it does return when the four dimensions are below 2^1000. *)
Theorem resolved_dimensions_at_least_one (ow oh tw th : Z)
    (keep_aspect_ratio no_upscale : bool) :
  0 < ow -> 0 < oh -> 0 < tw -> 0 < th ->
  (forall w h,
     get_target_size (ow, oh) (tw, th) keep_aspect_ratio no_upscale = Ok (w, h) ->
     1 <= w /\ 1 <= h) /\
  (ow < 2 ^ 1000 -> oh < 2 ^ 1000 -> tw < 2 ^ 1000 -> th < 2 ^ 1000 ->
   exists w h,
     get_target_size (ow, oh) (tw, th) keep_aspect_ratio no_upscale = Ok (w, h)).
Proof.
  intros How Hoh Htw Hth. split.
  - intros w h. destruct keep_aspect_ratio.
    + unfold get_target_size.
      replace ((ow =? 0) || (oh =? 0)) with false
        by (symmetry; apply orb_false_iff; split; apply Z.eqb_neq; lia).
      unfold rbind.
      repeat match goal with
             | |- context [match ?x with Ok _ => _ | Raise _ => _ end] =>
                 destruct x; [|discriminate]
             end.
      intros [= <- <-]. split; apply int_max_one_le.
    + destruct no_upscale; simpl; rewrite ?int_min_spec; intros [= <- <-]; lia.
  - intros Bow Boh Btw Bth. destruct keep_aspect_ratio.
    + apply aspect_locked_returns; lia.
    + destruct no_upscale; simpl; eauto.
Qed.

(** C4, amended: under the aspect lock and [no_upscale], an original of
    positive dimensions at most 2^53 that fits the target (itself below
    2^1023) is returned exactly. *)
Theorem fitting_original_returned_exactly (ow oh tw th : Z) :
  0 < ow <= 2 ^ 53 -> 0 < oh <= 2 ^ 53 ->
  ow <= tw < 2 ^ 1023 -> oh <= th < 2 ^ 1023 ->
  get_target_size (ow, oh) (tw, th) true true = Ok (ow, oh).
Proof.
  intros [How Bow] [Hoh Boh] [Htw Btw] [Hth Bth].
  pose proof (digits_below_pow2 tw 1023 ltac:(lia) Btw) as Dtw.
  pose proof (digits_below_pow2 th 1023 ltac:(lia) Bth) as Dth.
  pose proof (Zdigits2_mono ow tw How Htw).
  pose proof (Zdigits2_mono oh th Hoh Hth).
  pose proof (Zdigits2_pos _ How). pose proof (Zdigits2_pos _ Hoh).
  unfold get_target_size.
  replace ((ow =? 0) || (oh =? 0)) with false
    by (symmetry; apply orb_false_iff; split; apply Z.eqb_neq; lia).
  destruct (int_truediv_is_normal tw ow ltac:(lia) How ltac:(lia))
    as (sw & ew & -> & Nw & _ & Gw).
  destruct (int_truediv_is_normal th oh ltac:(lia) Hoh ltac:(lia))
    as (sh & eh & -> & Nh & _ & Gh).
  specialize (Gw Htw). specialize (Gh Hth).
  cbn [rbind].
  rewrite (min_one_above (PyFloat.min sw sh) (Z.min ew eh))
    by (try apply min_normal; try assumption; lia).
  destruct (of_int_small ow ltac:(lia)) as (mw & e1 & Fw & Dw & Ew & Rw).
  destruct (of_int_small oh ltac:(lia)) as (mh & e2 & Fh & Dh & Eh & Rh).
  unfold PyFloat.int_mul. rewrite Fw, Fh. cbn [rbind].
  rewrite !mul_one_exact by (try assumption; lia).
  rewrite Rw, Rh. cbn [rbind].
  rewrite !int_max_spec. f_equal. f_equal; lia.
Qed.

Lemma resolved_dimensions_at_least_one_witness :
  (0 < 800 /\ 0 < 600 /\ 0 < 400 /\ 0 < 400) /\
  (forall w h,
     get_target_size (800, 600) (400, 400) true true = Ok (w, h) ->
     1 <= w /\ 1 <= h) /\
  (800 < 2 ^ 1000 /\ 600 < 2 ^ 1000 /\ 400 < 2 ^ 1000) /\
  exists w h, get_target_size (800, 600) (400, 400) true true = Ok (w, h).
Proof.
  assert (H1 : 0 < 800) by reflexivity.
  assert (H2 : 0 < 600) by reflexivity.
  assert (H3 : 0 < 400) by reflexivity.
  assert (B1 : 800 < 2 ^ 1000) by reflexivity.
  assert (B2 : 600 < 2 ^ 1000) by reflexivity.
  assert (B3 : 400 < 2 ^ 1000) by reflexivity.
  destruct (resolved_dimensions_at_least_one 800 600 400 400 true true H1 H2 H3 H3)
    as [Hfloor Hreturns].
  split; [auto|]. split; [exact Hfloor|]. split; [auto|].
  exact (Hreturns B1 B2 B3 B3).
Defined.

Lemma fitting_original_returned_exactly_witness :
  (0 < 200 <= 2 ^ 53 /\ 0 < 100 <= 2 ^ 53) /\
  (200 <= 400 < 2 ^ 1023 /\ 100 <= 400 < 2 ^ 1023) /\
  get_target_size (200, 100) (400, 400) true true = Ok (200, 100).
Proof.
  assert (H1 : 0 < 200 <= 2 ^ 53) by (split; [reflexivity | discriminate]).
  assert (H2 : 0 < 100 <= 2 ^ 53) by (split; [reflexivity | discriminate]).
  assert (H3 : 200 <= 400 < 2 ^ 1023) by (split; [discriminate | reflexivity]).
  assert (H4 : 100 <= 400 < 2 ^ 1023) by (split; [discriminate | reflexivity]).
  split; [split; assumption|]. split; [split; assumption|].
  exact (fitting_original_returned_exactly 200 100 400 400 H1 H2 H3 H4).
Defined.

(** ** ImageTransformer *)

Section ProcessImage.
Context (pil : PIL).
Context (input_path : DirEntry) (output_path : string) (target_size : Z * Z)
        (quality : Z) (keep_aspect_ratio no_upscale lossless : bool).

Let run := process_image pil input_path output_path target_size quality
             keep_aspect_ratio no_upscale lossless.

Ltac split_run H :=
  unfold run, process_image, mbind, called, lift, do_save in H;
  repeat match type of H with
         | context [match ?x with _ => _ end] => destruct x eqn:?
         end;
  inversion H; subst; clear H.

Lemma process_image_frame w r w' : run w = (r, w') -> same_elsewhere output_path w w'.
Proof.
  intros H. split_run H; unfold same_elsewhere; simpl; repeat split; auto; intros;
    try rewrite lookup_insert_ne by auto; try rewrite lookup_delete_ne by auto; auto.
Qed.

(** A successful call wrote what [save] produced, from keyword arguments
    whose profile is the input's. *)
Lemma process_image_ok w w' :
  run w = (Ok tt, w') ->
  exists img target transposed resized kwargs data,
    Image_open pil (content input_path) = Ok img /\
    get_target_size (img_size pil img) target_size keep_aspect_ratio no_upscale
      = Ok target /\
    exif_transpose pil img = Ok transposed /\
    resize_lanczos pil transposed target = Ok resized /\
    kwargs !! "icc_profile"%string = VBytes <$> img_info_icc_profile pil img /\
    pil_save pil resized output_path kwargs (output_files w !! output_path)
      = Saved data /\
    pil_calls w' = pil_calls w ++
      [CallOpen (name input_path); CallExifTranspose (name input_path);
       CallResize (name input_path) target; CallSave output_path kwargs] /\
    output_files w' = <[output_path := data]> (output_files w).
Proof.
  intros H. split_run H; simpl in *.
  all: do 6 eexists; repeat split; try eassumption; try reflexivity.
  all: try (rewrite <- !app_assoc; reflexivity).
  all: match goal with H : img_info_icc_profile _ _ = _ |- _ => rewrite H end; reflexivity.
Qed.
End ProcessImage.

(** ** BatchRunner *)

Section Batch.
Context (pil : PIL) (args : Namespace).

Lemma loop_body_turn st p : exists l, turn pil args st p (loop_body pil args st p) l.
Proof.
  destruct st as [c w]. unfold loop_body.
  destruct (path_exists w (output_name_of p) && negb (overwrite args)) eqn:Hskip.
  - apply andb_true_iff in Hskip as [Hex Hov].
    apply negb_true_iff in Hov.
    eexists. apply (turn_skip pil args (c, w) p); assumption.
  - destruct (process_image _ _ _ _ _ _ _ _ w) as [[[]|exc] w'] eqn:Hrun.
    + eexists. apply (turn_ok pil args (c, w) p w'); assumption.
    + eexists. apply (turn_failed pil args (c, w) p exc w'); assumption.
Qed.

Lemma turn_console st p st' l :
  turn pil args st p st' l -> console (snd st') = console (snd st) ++ [l].
Proof.
  destruct 1 as [| w' _ Hrun | exc w' _ Hrun]; simpl; try reflexivity.
  all: apply process_image_frame in Hrun as (_ & _ & _ & -> & _); reflexivity.
Qed.

Lemma turn_outcome_line st p st' l : turn pil args st p st' l -> outcome_line_of p l.
Proof. destruct 1; unfold outcome_line_of; eauto. Qed.

Lemma turn_errors st p st' l :
  turn pil args st p st' l ->
  errors (fst st') = (errors (fst st) + if is_failure l then 1 else 0)%nat.
Proof. destruct 1; simpl; lia. Qed.

Lemma failed_count_app l1 l2 :
  failed_count (l1 ++ l2) = (failed_count l1 + failed_count l2)%nat.
Proof. unfold failed_count. rewrite List.filter_app, length_app. reflexivity. Qed.

(** The loop prints one outcome line per file, in order, whatever
    happens to each, and counts the failures among them. *)
Lemma run_loop_lines files : forall st,
  exists lines,
    console (snd (run_loop pil args files st)) = console (snd st) ++ lines /\
    Forall2 outcome_line_of files lines /\
    errors (fst (run_loop pil args files st))
      = (errors (fst st) + failed_count lines)%nat.
Proof.
  induction files as [|p files IH]; intros st; simpl.
  - exists []. rewrite app_nil_r. repeat split; [constructor | unfold failed_count; simpl; lia].
  - destruct (loop_body_turn st p) as [l Ht].
    destruct (IH (loop_body pil args st p)) as (lines & Hc & Hf & He).
    exists (l :: lines). unfold run_loop in *. repeat split.
    + rewrite Hc, (turn_console _ _ _ _ Ht), <- app_assoc. reflexivity.
    + constructor; [exact (turn_outcome_line _ _ _ _ Ht) | exact Hf].
    + rewrite He, (turn_errors _ _ _ _ Ht).
      change (l :: lines) with ([l] ++ lines). rewrite failed_count_app.
      unfold failed_count at 2. simpl.
      destruct (is_failure l); simpl; lia.
Qed.

(** Without [--overwrite], a turn never changes a file that is there. *)
Lemma turn_keeps_existing st p st' l q data :
  overwrite args = false ->
  turn pil args st p st' l ->
  output_files (snd st) !! q = Some data ->
  output_files (snd st') !! q = Some data.
Proof.
  intros Hov Ht Hq. destruct Ht as [| w' Hskip Hrun | exc w' Hskip Hrun]; simpl.
  - exact Hq.
  - rewrite Hov, andb_true_r in Hskip.
    apply process_image_frame in Hrun as (_ & _ & _ & _ & Hfr).
    rewrite Hfr; [exact Hq|]. intros ->.
    unfold path_exists in Hskip. apply bool_decide_eq_false in Hskip.
    apply Hskip. rewrite Hq. eauto.
  - rewrite Hov, andb_true_r in Hskip.
    apply process_image_frame in Hrun as (_ & _ & _ & _ & Hfr).
    rewrite Hfr; [exact Hq|]. intros ->.
    unfold path_exists in Hskip. apply bool_decide_eq_false in Hskip.
    apply Hskip. rewrite Hq. eauto.
Qed.

Lemma run_loop_keeps_existing files : forall st q data,
  overwrite args = false ->
  output_files (snd st) !! q = Some data ->
  output_files (snd (run_loop pil args files st)) !! q = Some data.
Proof.
  induction files as [|p files IH]; intros st q data Hov Hq; simpl; [exact Hq|].
  destruct (loop_body_turn st p) as [l Ht].
  apply IH; [exact Hov|]. eapply turn_keeps_existing; eassumption.
Qed.

Lemma loop_body_skip c w p data :
  overwrite args = false ->
  output_files w !! output_name_of p = Some data ->
  loop_body pil args (c, w) p
    = ({| processed := processed c; skipped := skipped c + 1;
          errors := errors c |},
       print (OutSkip (output_name_of p)) w).
Proof.
  intros Hov Hex. unfold loop_body, path_exists.
  rewrite bool_decide_eq_true_2 by (rewrite Hex; eauto).
  rewrite Hov. reflexivity.
Qed.

(** A turn that printed the success line left a file at the output path. *)
Lemma turn_ok_leaves_output st p :
  console (snd (loop_body pil args st p))
    = console (snd st) ++ [OutOK (name p) (output_name_of p)] ->
  exists data,
    output_files (snd (loop_body pil args st p)) !! output_name_of p = Some data.
Proof.
  intros Hc. destruct (loop_body_turn st p) as [l Ht].
  rewrite (turn_console _ _ _ _ Ht) in Hc.
  apply app_inv_head in Hc. injection Hc as ->.
  inversion Ht as [| w' Hskip Hrun Hst |]; subst. simpl.
  apply process_image_ok in Hrun
    as (? & ? & ? & ? & ? & data & _ & _ & _ & _ & _ & _ & _ & ->).
  exists data. apply lookup_insert_eq.
Qed.

Lemma run_loop_app l1 l2 st :
  run_loop pil args (l1 ++ l2) st = run_loop pil args l2 (run_loop pil args l1 st).
Proof. unfold run_loop. apply fold_left_app. Qed.
End Batch.

(** ** The order of the candidates *)

Lemma ltb_false_leb s1 s2 : String.ltb s2 s1 = false <-> String.leb s1 s2 = true.
Proof.
  unfold String.ltb, String.leb. rewrite (String.compare_antisym s2 s1).
  destruct (String.compare s1 s2); simpl; split; congruence.
Qed.

Lemma ltb_irrefl s : String.ltb s s = false.
Proof.
  unfold String.ltb. pose proof (String.compare_antisym s s) as H.
  destruct (String.compare s s); simpl in H; congruence.
Qed.

Lemma ltb_true_not_le a b : String.ltb (name a) (name b) = true -> ~ name_le b a.
Proof. unfold name_le. congruence. Qed.

Lemma ltb_true_le a b : String.ltb (name a) (name b) = true -> name_le a b.
Proof.
  unfold name_le, String.ltb. rewrite (String.compare_antisym (name a) (name b)).
  destruct (String.compare (name b) (name a)); simpl; congruence.
Qed.

Lemma name_le_trans a b c : name_le a b -> name_le b c -> name_le a c.
Proof.
  unfold name_le. rewrite !ltb_false_leb. intros H1 H2.
  apply Is_true_true. apply Is_true_true in H1, H2.
  exact (transitivity (R := String.le) H1 H2).
Qed.

Lemma insert_sorted_In p l x : In x (insert_sorted p l) <-> x = p \/ In x l.
Proof.
  induction l as [|q l IH]; simpl; [intuition congruence|].
  destruct (String.ltb (name q) (name p)); simpl; rewrite ?IH; intuition congruence.
Qed.

Lemma sorted_In x l : In x (sorted l) <-> In x l.
Proof.
  induction l as [|p l IH]; simpl; [tauto|].
  rewrite insert_sorted_In, IH. intuition congruence.
Qed.

Lemma insert_sorted_sorted p l :
  StronglySorted name_le l -> StronglySorted name_le (insert_sorted p l).
Proof.
  induction 1 as [|q l Hs IH Hq]; simpl.
  - repeat constructor.
  - destruct (String.ltb (name q) (name p)) eqn:Hlt.
    + constructor; [exact IH|].
      apply Forall_forall. intros x Hx. apply list_elem_of_In, insert_sorted_In in Hx.
      destruct Hx as [->|Hx]; [apply ltb_true_le; exact Hlt|].
      rewrite Forall_forall in Hq. apply Hq, list_elem_of_In, Hx.
    + constructor; [constructor; assumption|].
      constructor; [exact Hlt|].
      eapply Forall_impl; [exact Hq|]. intros x Hx.
      eapply name_le_trans; [exact Hlt | exact Hx].
Qed.

Lemma sorted_sorted l : StronglySorted name_le (sorted l).
Proof.
  induction l as [|p l IH]; simpl; [constructor|].
  apply insert_sorted_sorted, IH.
Qed.

(** Of two listed files, the one whose name is smaller comes first. *)
Lemma sorted_order l p1 p2 :
  In p1 l -> In p2 l -> String.ltb (name p1) (name p2) = true ->
  exists pre mid post, sorted l = pre ++ p1 :: mid ++ p2 :: post.
Proof.
  intros H1 H2 Hlt.
  apply sorted_In, in_split in H2 as (l1 & l2 & Hl).
  assert (Hin : In p1 (l1 ++ p2 :: l2)) by (rewrite <- Hl; apply sorted_In, H1).
  pose proof (sorted_sorted l) as Hs. rewrite Hl in Hs.
  apply in_app_or in Hin as [Hin|[->|Hin]].
  - apply in_split in Hin as (pre & mid & ->).
    exists pre, mid, l2. rewrite Hl, <- app_assoc. reflexivity.
  - rewrite ltb_irrefl in Hlt. discriminate.
  - exfalso. apply StronglySorted_app_1_r, StronglySorted_cons in Hs as [Hall _].
    rewrite Forall_forall in Hall.
    apply (ltb_true_not_le _ _ Hlt), Hall, list_elem_of_In, Hin.
Qed.

(** ** The claims on the batch *)

Section ExitStatus.
Context (pil : PIL) (args : Namespace).

(** A turn counts an error exactly when its file is not skipped and its
    [process_image] raises. *)
Lemma loop_body_errors st p :
  (fails_in pil args (snd st) p /\
   errors (fst (loop_body pil args st p)) = (errors (fst st) + 1)%nat) \/
  (~ fails_in pil args (snd st) p /\
   errors (fst (loop_body pil args st p)) = errors (fst st)).
Proof.
  destruct st as [c w0]. unfold fails_in, loop_body. cbn [fst snd].
  destruct (path_exists w0 (output_name_of p) && negb (overwrite args)) eqn:Hskip.
  - right. split; [intros [Hno _]; discriminate | reflexivity].
  - destruct (process_image _ _ _ _ _ _ _ _ w0) as [[[]|exc] w'] eqn:Hrun.
    + right. split; [|reflexivity].
      intros [_ (exc & w'' & Hr)]. discriminate.
    + left. split; [|reflexivity]. split; [reflexivity|]. eauto.
Qed.

Lemma run_loop_errors_le files : forall st,
  (errors (fst st) <= errors (fst (run_loop pil args files st)))%nat.
Proof.
  induction files as [|p files IH]; intros st; [apply Nat.le_refl|].
  change (run_loop pil args (p :: files) st)
    with (run_loop pil args files (loop_body pil args st p)).
  specialize (IH (loop_body pil args st p)).
  destruct (loop_body_errors st p) as [[_ He] | [_ He]]; lia.
Qed.

(** The loop counts an error exactly when some file of the list, in the
    world the loop reaches it in, is not skipped and fails. *)
Lemma run_loop_errors files : forall st,
  (errors (fst st) < errors (fst (run_loop pil args files st)))%nat <->
  exists pre p post,
    files = pre ++ p :: post /\
    fails_in pil args (snd (run_loop pil args pre st)) p.
Proof.
  induction files as [|p files IH]; intros st.
  - split.
    + unfold run_loop. simpl. lia.
    + intros (pre & q & post & Hl & _). destruct pre; discriminate.
  - change (run_loop pil args (p :: files) st)
      with (run_loop pil args files (loop_body pil args st p)).
    pose proof (run_loop_errors_le files (loop_body pil args st p)) as Hle.
    split.
    + intros Hlt. destruct (loop_body_errors st p) as [[Hf He] | [Hf He]].
      * exists [], p, files. split; [reflexivity | exact Hf].
      * rewrite <- He in Hlt. apply IH in Hlt as (pre & q & post & -> & Hq).
        exists (p :: pre), q, post. split; [reflexivity | exact Hq].
    + intros (pre & q & post & Hl & Hq). destruct pre as [|p' pre].
      * injection Hl as <- <-.
        destruct (loop_body_errors st p) as [[_ He] | [Hf _]]; [lia | contradiction].
      * injection Hl as <- ->.
        change (run_loop pil args (p :: pre) st)
          with (run_loop pil args pre (loop_body pil args st p)) in Hq.
        assert (Hlt : (errors (fst (loop_body pil args st p))
                       < errors (fst (run_loop pil args (pre ++ q :: post)
                                        (loop_body pil args st p))))%nat)
          by (apply IH; eauto).
        destruct (loop_body_errors st p) as [[_ He] | [_ He]]; lia.
Qed.

(** The status [main] returns is 1 exactly when the input directory is
    missing or some candidate fails during processing. *)
Lemma main_status w :
  (input_is_dir w = false \/ some_file_failed pil args w) /\ fst (main pil args w) = 1 \/
  (input_is_dir w = true /\ ~ some_file_failed pil args w) /\ fst (main pil args w) = 0.
Proof.
  unfold main, some_file_failed, world_before.
  destruct (input_is_dir w) eqn:Hdir; cbn [negb].
  - change (candidates (mkdir w)) with (candidates w).
    pose proof (run_loop_errors (candidates w) (no_counts, mkdir w)) as Herr.
    cbn [fst errors no_counts] in Herr.
    destruct (candidates w) as [|p files] eqn:Hfiles.
    + right. split; [|reflexivity]. split; [reflexivity|].
      intros (pre & q & post & Hl & _). destruct pre; discriminate.
    + change {| processed := 0; skipped := 0; errors := 0 |} with no_counts.
      destruct (run_loop pil args (p :: files) (no_counts, mkdir w)) as [c w'] eqn:Hrun.
      cbn [fst] in *.
      destruct (Nat.eqb_spec (errors c) 0) as [E|E].
      * right. split; [|reflexivity]. split; [reflexivity|].
        intros Hf. apply Herr in Hf. lia.
      * left. split; [|reflexivity]. right. apply Herr. lia.
  - left. split; [left; reflexivity | reflexivity].
Qed.
End ExitStatus.

(** C3: the exit status is 1 exactly when the input directory does not
    exist or some candidate, when the loop reaches it, is not skipped and
    its [process_image] raises; it is 0 exactly when the directory exists
    and no candidate fails so, which covers a directory without
    candidates and a run whose candidates are all skipped.  The status is
    also read off the console: it is 1 exactly when the directory is
    missing or a failure line was printed. *)
Theorem exit_status_contract (pil : PIL) (args : Namespace) (w : World) :
  (fst (main pil args w) = 1 <->
   input_is_dir w = false \/ some_file_failed pil args w) /\
  (fst (main pil args w) = 0 <->
   input_is_dir w = true /\ ~ some_file_failed pil args w) /\
  (input_is_dir w = true -> candidates w = [] -> fst (main pil args w) = 0) /\
  (input_is_dir w = true ->
   (forall pre p post,
      candidates w = pre ++ p :: post ->
      path_exists (world_before pil args w pre) (output_name_of p)
        && negb (overwrite args) = true) ->
   fst (main pil args w) = 0) /\
  exists lines,
    console (snd (main pil args w)) = console w ++ lines /\
    fst (main pil args w)
      = if input_is_dir w && (failed_count lines =? 0)%nat then 0%Z else 1%Z.
Proof.
  assert (Hone : fst (main pil args w) = 1 <->
                 input_is_dir w = false \/ some_file_failed pil args w).
  { destruct (main_status pil args w) as [[Hc He] | [[Hd Hn] He]].
    - tauto.
    - rewrite He. split; [discriminate|]. intros [Hd' | Hf]; [congruence | contradiction]. }
  assert (Hzero : fst (main pil args w) = 0 <->
                  input_is_dir w = true /\ ~ some_file_failed pil args w).
  { destruct (main_status pil args w) as [[Hc He] | [[Hd Hn] He]].
    - rewrite He. split; [discriminate|]. intros [Hd Hn].
      destruct Hc as [Hd' | Hf]; [congruence | contradiction].
    - tauto. }
  split; [exact Hone|]. split; [exact Hzero|]. split; [|split].
  - intros Hdir Hnone. apply Hzero. split; [exact Hdir|].
    intros (pre & p & post & Hl & _). rewrite Hnone in Hl. destruct pre; discriminate.
  - intros Hdir Hskips. apply Hzero. split; [exact Hdir|].
    intros (pre & p & post & Hl & Hno & _).
    rewrite (Hskips pre p post Hl) in Hno. discriminate.
  - unfold main. destruct (input_is_dir w) eqn:Hdir; simpl.
    + change (candidates (mkdir w)) with (candidates w).
      destruct (candidates w) as [|p files] eqn:Hfiles.
      * exists [OutNoImages]. simpl. split; reflexivity.
      * set (st0 := ({| processed := 0; skipped := 0; errors := 0 |}, mkdir w)).
        destruct (run_loop_lines pil args (p :: files) st0) as (lines & Hc & _ & He).
        destruct (run_loop pil args (p :: files) st0) as [c w'] eqn:Hrun.
        simpl in *.
        exists (lines ++ [OutSummary (processed c) (skipped c) (errors c)]).
        split.
        -- rewrite Hc, <- app_assoc. reflexivity.
        -- rewrite failed_count_app, He. unfold failed_count at 2. simpl.
           rewrite Nat.add_0_r. reflexivity.
    + exists [ErrInputMissing]. split; reflexivity.
Qed.


(** C8: without [--overwrite], a candidate whose output path exists is
    skipped: one skip line, one more skipped, no Pillow call, the output
    directory as it was; the loop goes on with the next candidate, and the
    file still has its contents when the loop ends. *)
Theorem existing_output_is_skipped (pil : PIL) (args : Namespace)
    (c : Counters) (w : World) (p : DirEntry) (rest : list DirEntry) (data : bytes) :
  overwrite args = false ->
  output_files w !! output_name_of p = Some data ->
  let st' := loop_body pil args (c, w) p in
  fst st' = {| processed := processed c; skipped := skipped c + 1;
               errors := errors c |} /\
  console (snd st') = console w ++ [OutSkip (output_name_of p)] /\
  pil_calls (snd st') = pil_calls w /\
  output_files (snd st') = output_files w /\
  run_loop pil args (p :: rest) (c, w) = run_loop pil args rest st' /\
  output_files (snd (run_loop pil args (p :: rest) (c, w))) !! output_name_of p
    = Some data.
Proof.
  intros Hov Hex. cbv zeta.
  pose proof (loop_body_skip pil args c w p data Hov Hex) as Hst.
  change (run_loop pil args (p :: rest) (c, w))
    with (run_loop pil args rest (loop_body pil args (c, w) p)).
  rewrite Hst. cbn [fst snd]. repeat split.
  apply run_loop_keeps_existing; [exact Hov | exact Hex].
Qed.

(** C9: when [process_image] succeeds, the file it leaves is what [save]
    wrote from keyword arguments whose ["icc_profile"] entry is the
    input's profile blob itself, and is absent when the input has none. *)
Theorem icc_profile_handed_over_unchanged (pil : PIL) (input_path : DirEntry)
    (output_path : string) (target_size : Z * Z) (quality : Z)
    (keep_aspect_ratio no_upscale lossless : bool) (w w' : World) :
  process_image pil input_path output_path target_size quality
    keep_aspect_ratio no_upscale lossless w = (Ok tt, w') ->
  exists img resized kwargs data,
    Image_open pil (content input_path) = Ok img /\
    kwargs !! "icc_profile"%string = VBytes <$> img_info_icc_profile pil img /\
    In (CallSave output_path kwargs) (pil_calls w') /\
    pil_save pil resized output_path kwargs (output_files w !! output_path)
      = Saved data /\
    output_files w' !! output_path = Some data.
Proof.
  intros Hrun.
  apply process_image_ok in Hrun
    as (img & target & transposed & resized & kwargs & data
        & Hopen & _ & _ & _ & Hicc & Hsave & Hcalls & Hfiles).
  exists img, resized, kwargs, data. repeat split; try assumption.
  - rewrite Hcalls. apply in_or_app. right. simpl. auto.
  - rewrite Hfiles. apply lookup_insert_eq.
Qed.


(** C10: two listed candidates with one stem have one output name, and
    the one whose name is smaller is handled first.  Without
    [--overwrite], if the first prints the success line, the second prints
    the skip line and changes no file.  With [--overwrite], if
    [process_image] succeeds on the second, it prints the success line and
    the shared path holds what [save] wrote for the second. *)
Theorem same_stem_shares_output (pil : PIL) (args : Namespace) (w : World)
    (p1 p2 : DirEntry) :
  In p1 (input_entries w) -> In p2 (input_entries w) ->
  is_candidate p1 = true -> is_candidate p2 = true ->
  stem (name p1) = stem (name p2) ->
  String.ltb (name p1) (name p2) = true ->
  output_name_of p1 = output_name_of p2 /\
  exists pre mid post,
    candidates w = pre ++ p1 :: mid ++ p2 :: post /\
    forall st0 : Counters * World,
      let s1 := run_loop pil args pre st0 in
      let s1' := loop_body pil args s1 p1 in
      let s2 := run_loop pil args mid s1' in
      let s2' := loop_body pil args s2 p2 in
      run_loop pil args (candidates w) st0 = run_loop pil args post s2' /\
      (overwrite args = false ->
       console (snd s1') = console (snd s1) ++ [OutOK (name p1) (output_name_of p1)] ->
       console (snd s2') = console (snd s2) ++ [OutSkip (output_name_of p2)] /\
       output_files (snd s2') = output_files (snd s2)) /\
      (overwrite args = true ->
       forall w',
         process_image pil p2 (output_name_of p2) (width args, height args)
           (quality args) (keep_aspect_ratio args) (no_upscale args)
           (lossless args) (snd s2) = (Ok tt, w') ->
         console (snd s2') = console (snd s2) ++ [OutOK (name p2) (output_name_of p2)] /\
         exists resized kwargs data,
           pil_save pil resized (output_name_of p2) kwargs
             (output_files (snd s2) !! output_name_of p2) = Saved data /\
           output_files (snd s2') !! output_name_of p1 = Some data).
Proof.
  intros Hin1 Hin2 Hc1 Hc2 Hstem Hlt.
  assert (Hout : output_name_of p1 = output_name_of p2)
    by (unfold output_name_of; rewrite Hstem; reflexivity).
  split; [exact Hout|].
  destruct (sorted_order (List.filter is_candidate (input_entries w)) p1 p2)
    as (pre & mid & post & Hsorted); [apply filter_In; auto .. | exact Hlt |].
  exists pre, mid, post. split; [exact Hsorted|].
  intros st0 s1 s1' s2 s2'. split; [|split].
  - unfold candidates. rewrite Hsorted, run_loop_app. simpl.
    rewrite run_loop_app. reflexivity.
  - intros Hov Hok.
    destruct (turn_ok_leaves_output pil args s1 p1 Hok) as [data Hdata].
    fold s1' in Hdata.
    assert (Hs2 : output_files (snd s2) !! output_name_of p2 = Some data).
    { rewrite <- Hout. apply run_loop_keeps_existing; assumption. }
    unfold s2'. destruct s2 as [c2 w2].
    rewrite (loop_body_skip pil args c2 w2 p2 data Hov Hs2). split; reflexivity.
  - intros Hov w' Hrun.
    unfold s2', loop_body. destruct s2 as [c2 w2]. simpl in *.
    rewrite Hov, andb_false_r, Hrun. simpl. split.
    + apply process_image_frame in Hrun as (_ & _ & _ & -> & _). reflexivity.
    + apply process_image_ok in Hrun
        as (? & ? & ? & resized & kwargs & data & _ & _ & _ & _ & _ & Hsave & _ & ->).
      exists resized, kwargs, data. split; [exact Hsave|].
      rewrite Hout. apply lookup_insert_eq.
Qed.

(** ** The claims on a small directory *)

Lemma exit_status_contract_witness :
  some_file_failed demo_pil (demo_args false) two_a /\
  fst (main demo_pil (demo_args false) two_a) = 1.
Proof.
  assert (Hf : some_file_failed demo_pil (demo_args false) two_a).
  { exists [a_jpg; a_png], b_png, []. split; [reflexivity|].
    split; [reflexivity|].
    eexists. eexists. reflexivity. }
  split; [exact Hf|].
  exact (proj2 (proj1 (exit_status_contract demo_pil (demo_args false) two_a))
           (or_intror Hf)).
Defined.


Lemma existing_output_is_skipped_witness :
  overwrite (demo_args false) = false /\
  output_files a_done !! output_name_of a_jpg = Some [Byte.x09] /\
  console (snd (loop_body demo_pil (demo_args false) (no_counts, a_done) a_jpg))
    = console a_done ++ [OutSkip (output_name_of a_jpg)] /\
  output_files (snd (run_loop demo_pil (demo_args false) [a_jpg; a_png; b_png]
                       (no_counts, a_done))) !! output_name_of a_jpg
    = Some [Byte.x09].
Proof.
  assert (H1 : overwrite (demo_args false) = false) by reflexivity.
  assert (H2 : output_files a_done !! output_name_of a_jpg = Some [Byte.x09])
    by (vm_compute; reflexivity).
  pose proof (existing_output_is_skipped demo_pil (demo_args false) no_counts a_done
                a_jpg [a_png; b_png] [Byte.x09] H1 H2) as H.
  cbv zeta in H. destruct H as (_ & Hc & _ & _ & _ & Hf).
  split; [exact H1|]. split; [exact H2|]. split; [exact Hc | exact Hf].
Defined.

Lemma icc_profile_handed_over_unchanged_witness :
  let run := process_image demo_pil a_jpg "a.webp" (400, 400) 80 true true false in
  run two_a = (Ok tt, snd (run two_a)) /\
  exists img resized kwargs data,
    Image_open demo_pil (content a_jpg) = Ok img /\
    kwargs !! "icc_profile"%string = VBytes <$> img_info_icc_profile demo_pil img /\
    In (CallSave "a.webp" kwargs) (pil_calls (snd (run two_a))) /\
    pil_save demo_pil resized "a.webp" kwargs (output_files two_a !! "a.webp"%string)
      = Saved data /\
    output_files (snd (run two_a)) !! "a.webp"%string = Some data.
Proof.
  intros run.
  assert (H : run two_a = (Ok tt, snd (run two_a))) by (vm_compute; reflexivity).
  split; [exact H|].
  exact (icc_profile_handed_over_unchanged demo_pil a_jpg "a.webp" (400, 400) 80
           true true false two_a (snd (run two_a)) H).
Defined.

Lemma same_stem_shares_output_witness :
  (In a_jpg (input_entries two_a) /\ In a_png (input_entries two_a)) /\
  (is_candidate a_jpg = true /\ is_candidate a_png = true) /\
  stem (name a_jpg) = stem (name a_png) /\
  String.ltb (name a_jpg) (name a_png) = true /\
  output_name_of a_jpg = output_name_of a_png.
Proof.
  assert (H1 : In a_jpg (input_entries two_a)) by (simpl; auto).
  assert (H2 : In a_png (input_entries two_a)) by (simpl; auto).
  assert (H3 : is_candidate a_jpg = true) by reflexivity.
  assert (H4 : is_candidate a_png = true) by reflexivity.
  assert (H5 : stem (name a_jpg) = stem (name a_png)) by reflexivity.
  assert (H6 : String.ltb (name a_jpg) (name a_png) = true) by reflexivity.
  split; [split; assumption|].
  split; [split; assumption|].
  split; [assumption|].
  split; [assumption|].
  exact (proj1 (same_stem_shares_output demo_pil (demo_args false) two_a a_jpg a_png
                  H1 H2 H3 H4 H5 H6)).
Defined.

Example same_stem_run :
  console (snd (main demo_pil (demo_args false) two_a))
    = [OutOK "a.jpg" "a.webp"; OutSkip "a.webp";
       ErrProcessing "b.png" (PILError "cannot identify image file");
       OutSummary 1 1 1] /\
  fst (main demo_pil (demo_args false) two_a) = 1 /\
  console (snd (main demo_pil (demo_args true) two_a))
    = [OutOK "a.jpg" "a.webp"; OutOK "a.png" "a.webp";
       ErrProcessing "b.png" (PILError "cannot identify image file");
       OutSummary 2 0 1] /\
  output_files (snd (main demo_pil (demo_args true) two_a)) !! "a.webp"%string
    = Some (content a_png).
Proof. vm_compute. auto. Qed.

Example skip_only_run :
  main demo_pil (demo_args false) (demo_world [a_jpg; a_png] {[ "a.webp"%string := [] ]})
  = (0, {| input_is_dir := true; input_entries := [a_jpg; a_png];
           output_dir_exists := true;
           output_files := {[ "a.webp"%string := [] ]};
           console := [OutSkip "a.webp"; OutSkip "a.webp"; OutSummary 0 2 0];
           pil_calls := [] |}).
Proof. vm_compute. reflexivity. Qed.

(** * Further properties *)

Lemma parse_args_accepted parsed args :
  parse_args parsed = Accepted args ->
  args = parsed /\ 0 < width args /\ 0 < height args /\ 0 <= quality args <= 100.
Proof.
  unfold parse_args.
  destruct (width parsed <=? 0) eqn:Hw; [discriminate|].
  destruct (height parsed <=? 0) eqn:Hh; [discriminate|].
  destruct (0 <=? quality parsed) eqn:Hq0; [|discriminate].
  destruct (quality parsed <=? 100) eqn:Hq1; [|discriminate].
  simpl. intros [= <-].
  apply Z.leb_gt in Hw, Hh. apply Z.leb_le in Hq0, Hq1.
  split; [reflexivity | lia].
Qed.

Section Run.
Context (pil : PIL) (args : Namespace).

Lemma turn_calls st p st' l :
  turn pil args st p st' l ->
  exists calls,
    pil_calls (snd st') = pil_calls (snd st) ++ calls /\
    Forall (expected_call pil args p) calls /\
    opened calls = (if is_skip_line l then [] else [name p]).
Proof.
  destruct 1 as [| w' _ Hrun | exc w' _ Hrun]; simpl.
  - exists []. rewrite app_nil_r. repeat split; constructor.
  - unfold process_image, mbind, called, lift, do_save in Hrun.
    repeat match type of Hrun with
           | context [match ?x with _ => _ end] => destruct x eqn:?
           end; inversion Hrun; subst; clear Hrun; simpl.
    all: rewrite <- ?app_assoc; simpl.
    all: eexists; split; [reflexivity|]; split;
      [repeat constructor; simpl; eauto | reflexivity].
  - unfold process_image, mbind, called, lift, do_save in Hrun.
    repeat match type of Hrun with
           | context [match ?x with _ => _ end] => destruct x eqn:?
           end; inversion Hrun; subst; clear Hrun; simpl.
    all: rewrite <- ?app_assoc; simpl.
    all: eexists; split; [reflexivity|]; split;
      [repeat constructor; simpl; eauto | reflexivity].
Qed.

Lemma turn_counts st p st' l :
  turn pil args st p st' l ->
  processed (fst st') = (processed (fst st) + if is_ok_line l then 1 else 0)%nat /\
  skipped (fst st') = (skipped (fst st) + if is_skip_line l then 1 else 0)%nat /\
  errors (fst st') = (errors (fst st) + if is_failure l then 1 else 0)%nat.
Proof. destruct 1; simpl; lia. Qed.

Lemma turn_frame st p st' l q :
  turn pil args st p st' l ->
  output_name_of p <> q ->
  output_files (snd st') !! q = output_files (snd st) !! q.
Proof.
  intros Ht Hq. destruct Ht as [| w' _ Hrun | exc w' _ Hrun]; simpl.
  - reflexivity.
  - apply process_image_frame in Hrun as (_ & _ & _ & _ & Hfr). apply Hfr. congruence.
  - apply process_image_frame in Hrun as (_ & _ & _ & _ & Hfr). apply Hfr. congruence.
Qed.

Lemma turn_inputs st p st' l :
  turn pil args st p st' l ->
  input_is_dir (snd st') = input_is_dir (snd st) /\
  input_entries (snd st') = input_entries (snd st) /\
  output_dir_exists (snd st') = output_dir_exists (snd st).
Proof.
  destruct 1 as [| w' _ Hrun | exc w' _ Hrun]; simpl; auto.
  all: apply process_image_frame in Hrun as (H1 & H2 & H3 & _); auto.
Qed.

(** Everything the loop does, turn by turn. *)
Lemma run_loop_trace files : forall st,
  exists lines calls,
    console (snd (run_loop pil args files st)) = console (snd st) ++ lines /\
    Forall2 outcome_line_of files lines /\
    pil_calls (snd (run_loop pil args files st)) = pil_calls (snd st) ++ calls /\
    Forall (fun c => exists p, In p files /\ expected_call pil args p c) calls /\
    processed (fst (run_loop pil args files st))
      = (processed (fst st) + ok_count lines)%nat /\
    skipped (fst (run_loop pil args files st))
      = (skipped (fst st) + skip_count lines)%nat /\
    errors (fst (run_loop pil args files st))
      = (errors (fst st) + failed_count lines)%nat /\
    (length (opened calls) + skip_count lines = length files)%nat /\
    input_is_dir (snd (run_loop pil args files st)) = input_is_dir (snd st) /\
    input_entries (snd (run_loop pil args files st)) = input_entries (snd st).
Proof.
  induction files as [|p files IH]; intros st.
  - exists [], []. simpl. rewrite !app_nil_r.
    repeat split; try constructor; unfold ok_count, skip_count, failed_count; simpl; lia.
  - destruct (loop_body_turn pil args st p) as [l Ht].
    destruct (IH (loop_body pil args st p))
      as (lines & calls & Hc & Hf & Hp & Hall & Hok & Hsk & Her & Hlen & Hd & Hen).
    destruct (turn_calls _ _ _ _ Ht) as (calls0 & Hp0 & Hall0 & Hop0).
    destruct (turn_counts _ _ _ _ Ht) as (Hok0 & Hsk0 & Her0).
    destruct (turn_inputs _ _ _ _ Ht) as (Hd0 & Hen0 & _).
    exists (l :: lines), (calls0 ++ calls).
    change (run_loop pil args (p :: files) st)
      with (run_loop pil args files (loop_body pil args st p)).
    assert (Hcount : forall f, length (List.filter f (l :: lines))
                        = ((if f l then 1 else 0) + length (List.filter f lines))%nat)
      by (intros f; simpl; destruct (f l); reflexivity).
    unfold ok_count, skip_count, failed_count in *. rewrite !Hcount.
    repeat split.
    + rewrite Hc, (turn_console pil args _ _ _ _ Ht), <- app_assoc. reflexivity.
    + constructor; [exact (turn_outcome_line pil args _ _ _ _ Ht) | exact Hf].
    + rewrite Hp, Hp0, <- app_assoc. reflexivity.
    + apply Forall_app. split.
      * eapply Forall_impl; [exact Hall0|]. intros c Hc'. exists p. simpl. auto.
      * eapply Forall_impl; [exact Hall|]. intros c (p' & Hin & Hc'). exists p'. simpl. auto.
    + lia.
    + lia.
    + lia.
    + unfold opened. rewrite flat_map_app, length_app.
      fold (opened calls0). fold (opened calls).
      rewrite Hop0. destruct (is_skip_line l); simpl; lia.
    + congruence.
    + congruence.
Qed.

Lemma run_loop_frame files : forall st q,
  (forall p, In p files -> output_name_of p <> q) ->
  output_files (snd (run_loop pil args files st)) !! q = output_files (snd st) !! q.
Proof.
  induction files as [|p files IH]; intros st q Hq; [reflexivity|].
  change (run_loop pil args (p :: files) st)
    with (run_loop pil args files (loop_body pil args st p)).
  destruct (loop_body_turn pil args st p) as [l Ht].
  rewrite IH by (intros; apply Hq; simpl; auto).
  eapply turn_frame; [exact Ht|]. apply Hq. simpl. auto.
Qed.
End Run.

Lemma main_of_directory pil args w :
  input_is_dir w = true ->
  main pil args w =
    match candidates w with
    | [] => (0, print OutNoImages (mkdir w))
    | _ =>
        let '(c, w') :=
          run_loop pil args (candidates w)
            ({| processed := 0; skipped := 0; errors := 0 |}, mkdir w) in
        ((if (errors c =? 0)%nat then 0 else 1),
         print (OutSummary (processed c) (skipped c) (errors c)) w')
    end.
Proof.
  intros Hdir. unfold main. rewrite Hdir. simpl.
  change (candidates (mkdir w)) with (candidates w).
  destruct (candidates w); reflexivity.
Qed.

Lemma outcome_lines_partition files lines :
  Forall2 outcome_line_of files lines ->
  (ok_count lines + skip_count lines + failed_count lines = length files)%nat.
Proof.
  unfold ok_count, skip_count, failed_count.
  induction 1 as [|p l files lines Hl _ IH]; [reflexivity|].
  destruct Hl as [-> | [-> | [exc ->]]]; simpl; lia.
Qed.

(** X1: when the input directory exists and holds a candidate, a run
    prints its outcome lines and then the summary, whose three counts are
    the numbers of converted, skipped and failed lines; they add up to the
    number of candidates, and Pillow opens one file per line that is not a
    skip. *)
Theorem summary_accounts_for_every_candidate (pil : PIL) (args : Namespace) (w : World) :
  input_is_dir w = true -> candidates w <> [] ->
  exists lines calls,
    console (snd (main pil args w))
      = console w ++ lines
          ++ [OutSummary (ok_count lines) (skip_count lines) (failed_count lines)] /\
    pil_calls (snd (main pil args w)) = pil_calls w ++ calls /\
    (ok_count lines + skip_count lines + failed_count lines
     = length (candidates w))%nat /\
    (length (opened calls) = ok_count lines + failed_count lines)%nat.
Proof.
  intros Hdir Hne. rewrite (main_of_directory pil args w Hdir).
  destruct (candidates w) as [|p files] eqn:Hfiles; [congruence|].
  set (st0 := ({| processed := 0; skipped := 0; errors := 0 |}, mkdir w)).
  destruct (run_loop_trace pil args (p :: files) st0)
    as (lines & calls & Hc & Hf & Hp & _ & Hok & Hsk & Her & Hlen & _).
  destruct (run_loop pil args (p :: files) st0) as [c w'].
  simpl in Hc, Hp, Hok, Hsk, Her.
  pose proof (outcome_lines_partition _ _ Hf) as Hsum.
  exists lines, calls. simpl snd. simpl console. simpl pil_calls.
  rewrite Hok, Hsk, Her, Hc, Hp, <- app_assoc.
  repeat split; [exact Hsum | lia].
Qed.

(** X2: a run leaves every name of the output directory that is not the
    output name of a candidate as it was, present with the same bytes or
    absent. *)
Theorem only_candidate_outputs_change (pil : PIL) (args : Namespace) (w : World)
    (q : string) :
  (forall p, In p (candidates w) -> output_name_of p <> q) ->
  output_files (snd (main pil args w)) !! q = output_files w !! q.
Proof.
  intros Hq. destruct (input_is_dir w) eqn:Hdir.
  - rewrite (main_of_directory pil args w Hdir).
    destruct (candidates w) as [|p files] eqn:Hfiles; [reflexivity|].
    pose proof (run_loop_frame pil args (p :: files)
                  ({| processed := 0; skipped := 0; errors := 0 |}, mkdir w) q Hq) as Hfr.
    destruct (run_loop pil args (p :: files) _) as [c w']. exact Hfr.
  - unfold main. rewrite Hdir. reflexivity.
Qed.

Lemma main_calls pil args w :
  exists calls,
    pil_calls (snd (main pil args w)) = pil_calls w ++ calls /\
    Forall (fun c => exists p, In p (candidates w) /\ expected_call pil args p c) calls.
Proof.
  destruct (input_is_dir w) eqn:Hdir.
  - rewrite (main_of_directory pil args w Hdir).
    destruct (candidates w) as [|p files] eqn:Hfiles.
    + exists []. simpl. rewrite app_nil_r. split; constructor.
    + destruct (run_loop_trace pil args (p :: files)
                  ({| processed := 0; skipped := 0; errors := 0 |}, mkdir w))
        as (lines & calls & _ & _ & Hp & Hall & _).
      destruct (run_loop pil args (p :: files) _) as [c w'].
      exists calls. split; [exact Hp | exact Hall].
  - unfold main. rewrite Hdir. exists []. simpl. rewrite app_nil_r. split; constructor.
Qed.

(** X3: with accepted arguments, every [save] of a run is for a
    candidate's output name, as WEBP, method 6, with the run's lossless
    flag and a quality between 0 and 100. *)
Theorem every_save_uses_the_run_settings (pil : PIL) (parsed args : Namespace)
    (w : World) :
  parse_args parsed = Accepted args ->
  exists calls,
    pil_calls (snd (main pil args w)) = pil_calls w ++ calls /\
    forall out kwargs,
      In (CallSave out kwargs) calls ->
      (exists p, In p (candidates w) /\ out = output_name_of p) /\
      kwargs !! "format"%string = Some (VStr "WEBP") /\
      kwargs !! "method"%string = Some (VInt 6) /\
      kwargs !! "lossless"%string = Some (VBool (lossless parsed)) /\
      kwargs !! "quality"%string = Some (VInt (quality parsed)) /\
      0 <= quality parsed <= 100.
Proof.
  intros Hacc. apply parse_args_accepted in Hacc as (-> & _ & _ & Hq).
  destruct (main_calls pil parsed w) as (calls & Hp & Hall).
  exists calls. split; [exact Hp|].
  intros out kwargs Hin. rewrite Forall_forall in Hall.
  apply list_elem_of_In, Hall in Hin as (p & Hp' & Hout & Hf & Hqu & Hl & Hm).
  repeat split; eauto; lia.
Qed.

Lemma get_target_size_floor original target keep_aspect_ratio no_upscale resized :
  0 < fst original -> 0 < snd original -> 0 < fst target -> 0 < snd target ->
  get_target_size original target keep_aspect_ratio no_upscale = Ok resized ->
  1 <= fst resized /\ 1 <= snd resized.
Proof.
  destruct original as [ow oh], target as [tw th]. simpl fst. simpl snd.
  intros How Hoh Htw Hth. destruct keep_aspect_ratio.
  - unfold get_target_size.
    replace ((ow =? 0) || (oh =? 0)) with false
      by (symmetry; apply orb_false_iff; split; apply Z.eqb_neq; lia).
    unfold rbind.
    repeat match goal with
           | |- context [match ?x with Ok _ => _ | Raise _ => _ end] =>
               destruct x; [|discriminate]
           end.
    intros [= <-]. simpl. split; apply int_max_one_le.
  - destruct no_upscale; simpl; rewrite ?int_min_spec; intros [= <-]; simpl; lia.
Qed.

(** X4: with accepted arguments and a Pillow that reports positive sizes,
    [resize] is never asked for a size with a component below 1. *)
Theorem resize_is_never_asked_for_an_empty_size (pil : PIL) (parsed args : Namespace)
    (w : World) :
  parse_args parsed = Accepted args ->
  (forall b img, Image_open pil b = Ok img ->
                 0 < fst (img_size pil img) /\ 0 < snd (img_size pil img)) ->
  exists calls,
    pil_calls (snd (main pil args w)) = pil_calls w ++ calls /\
    forall n size, In (CallResize n size) calls -> 1 <= fst size /\ 1 <= snd size.
Proof.
  intros Hacc Hpos. apply parse_args_accepted in Hacc as (-> & Hw & Hh & _).
  destruct (main_calls pil parsed w) as (calls & Hp & Hall).
  exists calls. split; [exact Hp|].
  intros n size Hin. rewrite Forall_forall in Hall.
  apply list_elem_of_In, Hall in Hin as (p & _ & _ & img & Hopen & Hsize).
  destruct (Hpos _ _ Hopen) as [H1 H2].
  exact (get_target_size_floor (img_size pil img) (width parsed, height parsed)
           _ _ size H1 H2 Hw Hh Hsize).
Qed.

(** X5: when a stage before [save] raises, [process_image] raises that
    error, never calls [save] and leaves the output directory as it was. *)
Theorem failure_before_save_leaves_outputs (pil : PIL) (args : Namespace)
    (p : DirEntry) (exc : PyError) (w : World) :
  fails_before_save pil args p exc ->
  exists w' calls,
    process_image pil p (output_name_of p) (width args, height args) (quality args)
      (keep_aspect_ratio args) (no_upscale args) (lossless args) w = (Raise exc, w') /\
    output_files w' = output_files w /\
    pil_calls w' = pil_calls w ++ calls /\
    forall out kwargs, ~ In (CallSave out kwargs) calls.
Proof.
  unfold fails_before_save, process_image, mbind, called, lift.
  intros [Hopen | (img & Hopen & [Hsize | (target & Hsize & [Htr | (tr & Htr & Hres)])])].
  - rewrite Hopen. eexists. exists [CallOpen (name p)]. repeat split.
    intros out kwargs [Hc|[]]. discriminate.
  - rewrite Hopen, Hsize. eexists. exists [CallOpen (name p)]. repeat split.
    intros out kwargs [Hc|[]]. discriminate.
  - rewrite Hopen, Hsize, Htr. eexists.
    exists [CallOpen (name p); CallExifTranspose (name p)].
    split; [reflexivity|]. split; [reflexivity|].
    split; [simpl; rewrite <- app_assoc; reflexivity|].
    intros out kwargs [Hc|[Hc|[]]]; discriminate.
  - rewrite Hopen, Hsize, Htr, Hres. eexists.
    exists [CallOpen (name p); CallExifTranspose (name p);
            CallResize (name p) target].
    split; [reflexivity|]. split; [reflexivity|].
    split; [simpl; rewrite <- !app_assoc; reflexivity|].
    intros out kwargs [Hc|[Hc|[Hc|[]]]]; discriminate.
Qed.

Section SecondRun.
Context (pil : PIL).

Lemma turn_without_failure_keeps_outputs args st p st' l :
  turn pil args st p st' l -> is_failure l = false ->
  (forall q, is_Some (output_files (snd st) !! q) ->
             is_Some (output_files (snd st') !! q)) /\
  is_Some (output_files (snd st') !! output_name_of p).
Proof.
  intros Ht Hl. destruct Ht as [Hex _ | w' _ Hrun | exc w' _ Hrun]; simpl in *.
  - split; [auto|]. unfold path_exists in Hex. apply bool_decide_eq_true in Hex. exact Hex.
  - apply process_image_ok in Hrun
      as (? & ? & ? & ? & ? & data & _ & _ & _ & _ & _ & _ & _ & ->).
    split.
    + intros q Hq. destruct (decide (output_name_of p = q)) as [->|Hne].
      * rewrite lookup_insert_eq. eauto.
      * rewrite lookup_insert_ne by exact Hne. exact Hq.
    + rewrite lookup_insert_eq. eauto.
  - discriminate.
Qed.

Lemma run_loop_without_failure_outputs_exist args files : forall st,
  errors (fst (run_loop pil args files st)) = errors (fst st) ->
  (forall q, is_Some (output_files (snd st) !! q) ->
             is_Some (output_files (snd (run_loop pil args files st)) !! q)) /\
  (forall p, In p files ->
             is_Some (output_files (snd (run_loop pil args files st)) !! output_name_of p)).
Proof.
  induction files as [|p files IH]; intros st Herr.
  - split; [auto | intros p []].
  - change (run_loop pil args (p :: files) st)
      with (run_loop pil args files (loop_body pil args st p)) in *.
    destruct (loop_body_turn pil args st p) as [l Ht].
    destruct (run_loop_lines pil args files (loop_body pil args st p))
      as (lines & _ & _ & Hrest).
    pose proof (turn_errors pil args _ _ _ _ Ht) as Hstep.
    assert (Hl : is_failure l = false) by (destruct (is_failure l); [lia | reflexivity]).
    rewrite Hl in Hstep.
    destruct (IH (loop_body pil args st p) ltac:(lia)) as [Hkeep Hall].
    destruct (turn_without_failure_keeps_outputs args _ _ _ _ Ht Hl) as [Hkeep0 Hown].
    split.
    + intros q Hq. apply Hkeep, Hkeep0, Hq.
    + intros p' [<-|Hin]; [apply Hkeep, Hown | apply Hall, Hin].
Qed.

Lemma run_loop_skips_all args files : forall c w,
  overwrite args = false ->
  (forall p, In p files -> is_Some (output_files w !! output_name_of p)) ->
  exists c' w',
    run_loop pil args files (c, w) = (c', w') /\
    processed c' = processed c /\ errors c' = errors c /\
    skipped c' = (skipped c + length files)%nat /\
    console w' = console w ++ map (fun p => OutSkip (output_name_of p)) files /\
    output_files w' = output_files w /\ pil_calls w' = pil_calls w.
Proof.
  induction files as [|p files IH]; intros c w Hov Hex.
  - exists c, w. simpl. rewrite app_nil_r. repeat split; lia.
  - change (run_loop pil args (p :: files) (c, w))
      with (run_loop pil args files (loop_body pil args (c, w) p)).
    destruct (Hex p ltac:(simpl; auto)) as [data Hdata].
    rewrite (loop_body_skip pil args c w p data Hov Hdata).
    destruct (IH {| processed := processed c; skipped := skipped c + 1;
                    errors := errors c |}
                (print (OutSkip (output_name_of p)) w) Hov)
      as (c' & w' & Hrun & Hp & He & Hs & Hc & Hf & Hcalls).
    { intros p' Hin. simpl. apply Hex. simpl. auto. }
    exists c', w'. simpl in *. rewrite Hc, <- app_assoc.
    repeat split; try assumption; try lia. 
Qed.
End SecondRun.

Lemma main_without_failure pil args w :
  input_is_dir w = true -> fst (main pil args w) = 0 ->
  input_is_dir (snd (main pil args w)) = true /\
  input_entries (snd (main pil args w)) = input_entries w /\
  forall p, In p (candidates w) ->
            is_Some (output_files (snd (main pil args w)) !! output_name_of p).
Proof.
  intros Hdir. rewrite (main_of_directory pil args w Hdir).
  destruct (candidates w) as [|p files] eqn:Hfiles.
  - simpl. intros _. repeat split; auto. intros p [].
  - set (st0 := ({| processed := 0; skipped := 0; errors := 0 |}, mkdir w)).
    destruct (run_loop_trace pil args (p :: files) st0)
      as (_ & _ & _ & _ & _ & _ & _ & _ & _ & _ & Hd & Hen).
    pose proof (run_loop_without_failure_outputs_exist pil args (p :: files) st0) as Hex.
    destruct (run_loop pil args (p :: files) st0) as [c w'].
    simpl in Hd, Hen, Hex |- *.
    destruct (errors c =? 0)%nat eqn:He; [|discriminate]. intros _.
    apply Nat.eqb_eq in He.
    repeat split; [congruence | congruence |].
    apply Hex. exact He.
Qed.

(** X6: after a run in which no file failed, a second run without
    [--overwrite] on what the first left skips every candidate: it makes no
    Pillow call, changes no file, and exits with status 0. *)
Theorem second_run_skips_everything (pil : PIL) (args1 args2 : Namespace) (w : World) :
  input_is_dir w = true ->
  fst (main pil args1 w) = 0 ->
  overwrite args2 = false ->
  let w1 := snd (main pil args1 w) in
  fst (main pil args2 w1) = 0 /\
  output_files (snd (main pil args2 w1)) = output_files w1 /\
  pil_calls (snd (main pil args2 w1)) = pil_calls w1 /\
  exists lines,
    console (snd (main pil args2 w1)) = console w1 ++ lines /\
    (skip_count lines = length (candidates w) /\
     ok_count lines = 0 /\ failed_count lines = 0)%nat.
Proof.
  intros Hdir Hzero Hov w1.
  destruct (main_without_failure pil args1 w Hdir Hzero) as (Hdir1 & Hen1 & Hex1).
  fold w1 in Hdir1, Hen1, Hex1.
  assert (Hcand : candidates w1 = candidates w) by (unfold candidates; rewrite Hen1; reflexivity).
  rewrite (main_of_directory pil args2 w1 Hdir1), Hcand.
  destruct (candidates w) as [|p files] eqn:Hfiles.
  - simpl. repeat split. exists [OutNoImages]. repeat split.
  - destruct (run_loop_skips_all pil args2 (p :: files)
                {| processed := 0; skipped := 0; errors := 0 |} (mkdir w1) Hov Hex1)
      as (c' & w' & -> & Hp & He & Hs & Hc & Hf & Hcalls).
    cbn [fst snd processed skipped errors] in Hp, He, Hs.
    cbn [mkdir console output_files pil_calls] in Hc, Hf, Hcalls.
    cbn [fst snd print console output_files pil_calls].
    assert (Hst : (errors c' =? 0)%nat = true) by (rewrite He; reflexivity).
    rewrite Hst. split; [reflexivity|]. split; [exact Hf|]. split; [exact Hcalls|].
    exists (map (fun p => OutSkip (output_name_of p)) (p :: files)
              ++ [OutSummary (processed c') (skipped c') (errors c')]).
    split; [rewrite Hc, <- app_assoc; reflexivity|].
    unfold skip_count, ok_count, failed_count.
    rewrite !List.filter_app, !length_app.
    generalize (p :: files) as l. intros l. cbn [List.filter is_skip_line is_ok_line is_failure length].
    induction l as [|x l (H1 & H2 & H3)]; simpl in *; repeat split; lia.
Qed.

(** ** File names *)

Local Open Scope string_scope.

Lemma append_nil t : "" ++ t = t.
Proof. reflexivity. Qed.

Lemma append_cons c s t : String c s ++ t = String c (s ++ t).
Proof. reflexivity. Qed.

Lemma length_append s t : String.length (s ++ t) = (String.length s + String.length t)%nat.
Proof.
  induction s as [|c s IH]; rewrite ?append_nil, ?append_cons; simpl;
    [reflexivity | rewrite IH; reflexivity].
Qed.

Lemma rfind_dot_app s t :
  rfind_dot (s ++ t) =
    match rfind_dot t with
    | Some i => Some (String.length s + i)%nat
    | None => rfind_dot s
    end.
Proof.
  induction s as [|c s IH]; rewrite ?append_nil, ?append_cons; simpl.
  - destruct (rfind_dot t); reflexivity.
  - rewrite IH. destruct (rfind_dot t); [reflexivity|].
    destruct (rfind_dot s); reflexivity.
Qed.

Lemma substring_app_l s t : substring 0 (String.length s) (s ++ t) = s.
Proof.
  induction s as [|c s IH]; rewrite ?append_nil, ?append_cons; simpl.
  - destruct t; reflexivity.
  - rewrite IH. reflexivity.
Qed.

Lemma substring_app_r s t n :
  substring (String.length s) n (s ++ t) = substring 0 n t.
Proof.
  induction s as [|c s IH]; rewrite ?append_nil, ?append_cons; simpl;
    [reflexivity | exact IH].
Qed.

(** A name made of a non-empty stem and [".webp"] splits back into them. *)
Lemma split_webp st :
  st <> "" -> stem (st ++ ".webp") = st /\ suffix (st ++ ".webp") = ".webp".
Proof.
  intros Hne. unfold stem, suffix, splits.
  rewrite rfind_dot_app, length_append. simpl rfind_dot. simpl String.length.
  cbv iota beta. rewrite !Nat.add_0_r.
  assert (Hlen : (0 < String.length st)%nat) by (destruct st; [congruence | simpl; lia]).
  replace ((0 <? String.length st)%nat) with true by (symmetry; apply Nat.ltb_lt; lia).
  replace ((String.length st <? String.length st + 5 - 1)%nat) with true
    by (symmetry; apply Nat.ltb_lt; lia).
  simpl andb. cbv iota. split.
  - apply substring_app_l.
  - replace (String.length st + 5 - String.length st)%nat with 5%nat by lia.
    rewrite substring_app_r. reflexivity.
Qed.

Lemma substring_prefix_nonempty i s :
  (0 < i)%nat -> (i < String.length s)%nat -> substring 0 i s <> "".
Proof. destruct i, s; simpl; try lia. intros _ _. discriminate. Qed.

Lemma candidate_stem_nonempty p : is_candidate p = true -> stem (name p) <> "".
Proof.
  unfold is_candidate, stem, suffix. intros H. apply andb_true_iff in H as [_ H].
  destruct (rfind_dot (name p)) as [i|]; [|discriminate].
  unfold splits in *. destruct ((0 <? i)%nat && (i <? String.length (name p) - 1)%nat) eqn:Hs;
    [|discriminate].
  apply andb_true_iff in Hs as [H0 H1]. apply Nat.ltb_lt in H0, H1.
  apply substring_prefix_nonempty; lia.
Qed.

(** X7: the output name of a candidate splits into the candidate's stem and
    [".webp"], and no entry of that name is itself a candidate. *)
Theorem output_name_is_never_a_candidate (p : DirEntry) :
  is_candidate p = true ->
  stem (output_name_of p) = stem (name p) /\
  suffix (output_name_of p) = ".webp" /\
  forall q, name q = output_name_of p -> is_candidate q = false.
Proof.
  intros Hp. pose proof (candidate_stem_nonempty p Hp) as Hne.
  destruct (split_webp (stem (name p)) Hne) as [Hst Hsu].
  unfold output_name_of. repeat split; try assumption.
  intros q Hq. unfold is_candidate. rewrite Hq. unfold output_name_of. rewrite Hsu.
  apply andb_false_r.
Qed.

Lemma lower_ascii_dot c : Ascii.eqb (lower_ascii c) "." = Ascii.eqb c ".".
Proof. destruct c as [[] [] [] [] [] [] [] []]; reflexivity. Qed.

Lemma length_lower s : String.length (lower s) = String.length s.
Proof. induction s as [|c s IH]; simpl; congruence. Qed.

Lemma rfind_dot_lower s : rfind_dot (lower s) = rfind_dot s.
Proof.
  induction s as [|c s IH]; simpl; [reflexivity|].
  rewrite IH, lower_ascii_dot. reflexivity.
Qed.

Lemma substring_lower s : forall i n, substring i n (lower s) = lower (substring i n s).
Proof.
  induction s as [|c s IH]; intros i n.
  - destruct i, n; reflexivity.
  - destruct i as [|i]; simpl.
    + destruct n as [|n]; simpl; [reflexivity|]. rewrite IH. reflexivity.
    + apply IH.
Qed.

Lemma suffix_lower s : suffix (lower s) = lower (suffix s).
Proof.
  unfold suffix, splits. rewrite rfind_dot_lower, length_lower.
  destruct (rfind_dot s) as [i|]; [|reflexivity].
  destruct ((0 <? i)%nat && (i <? String.length s - 1)%nat); [|reflexivity].
  apply substring_lower.
Qed.

(** X8: whether an entry is a candidate depends on its name only up to
    the case of its letters. *)
Theorem candidate_test_ignores_case (p q : DirEntry) :
  is_file p = is_file q -> lower (name p) = lower (name q) ->
  is_candidate p = is_candidate q.
Proof.
  intros Hf Hn. unfold is_candidate.
  rewrite Hf, <- !suffix_lower, Hn. reflexivity.
Qed.

Local Close Scope string_scope.

Lemma insert_sorted_perm p l : Permutation (insert_sorted p l) (p :: l).
Proof.
  induction l as [|q l IH]; simpl; [reflexivity|].
  destruct (String.ltb (name q) (name p)); [|reflexivity].
  rewrite IH. apply perm_swap.
Qed.

Lemma sorted_perm l : Permutation (sorted l) l.
Proof.
  induction l as [|p l IH]; simpl; [reflexivity|].
  rewrite insert_sorted_perm. constructor. exact IH.
Qed.

(** X9: the candidates are the regular files of the input directory whose
    suffix, lowercased, is supported: each of them once, in the order of
    their names. *)
Theorem candidates_are_the_supported_files (w : World) :
  Permutation (candidates w)
    (List.filter (fun p => is_file p && supported (lower (suffix (name p))))
       (input_entries w)) /\
  StronglySorted name_le (candidates w) /\
  (forall p, In p (candidates w) <->
             In p (input_entries w) /\ is_file p = true /\
             supported (lower (suffix (name p))) = true).
Proof.
  split; [apply sorted_perm|]. split; [apply sorted_sorted|].
  intros p. unfold candidates. rewrite sorted_In, filter_In.
  unfold is_candidate. rewrite andb_true_iff. reflexivity.
Qed.
(** * The resolver's arithmetic *)

(** ** The value a rounding returns *)

(** The first shift keeps the 53 leading digits. *)
Lemma shr_fexp_value m e l mrs e' :
  0 < m -> 53 <= Zdigits2 m -> -1021 <= Zdigits2 m + e ->
  shr_fexp prec emax m e l = (mrs, e') ->
  shr_m mrs = m / 2 ^ (Zdigits2 m - 53) /\ e' = e + (Zdigits2 m - 53).
Proof.
  intros Hm Hd Hlo. unfold shr_fexp. rewrite fexp_normal by exact Hlo.
  replace (Zdigits2 m + e - 53 - e) with (Zdigits2 m - 53) by lia.
  destruct (Z.eq_dec (Zdigits2 m) 53) as [E|E].
  - rewrite E, shr_noop by lia. intros [= <- <-].
    rewrite shr_record_of_loc_m. change (2 ^ (53 - 53)) with 1.
    rewrite Z.div_1_r. lia.
  - intros Hshr.
    destruct (shr_m_spec (shr_record_of_loc m l) e (Zdigits2 m - 53)) as [H1 H2];
      [rewrite shr_record_of_loc_m; lia | lia |].
    rewrite Hshr in H1, H2. simpl in H1, H2.
    rewrite shr_record_of_loc_m in H1. split; assumption.
Qed.

(** A mantissa [mx] of at least 53 digits rounds to its 53 leading digits
    [mx / 2^n], or to their successor; when the successor is 2^53 the
    result is 2^52 with the next exponent. *)
Lemma binary_round_aux_value sx mx ex lx :
  0 < mx -> 53 <= Zdigits2 mx -> -1021 <= Zdigits2 mx + ex <= 1023 ->
  exists m e r,
    binary_round_aux prec emax sx mx ex lx = S754_finite sx m e /\
    Zpos (digits2_pos m) = 53 /\
    mx / 2 ^ (Zdigits2 mx - 53) <= r <= mx / 2 ^ (Zdigits2 mx - 53) + 1 /\
    2 ^ 52 <= mx / 2 ^ (Zdigits2 mx - 53) < 2 ^ 53 /\
    ((r < 2 ^ 53 /\ Zpos m = r /\ e = ex + (Zdigits2 mx - 53)) \/
     (r = 2 ^ 53 /\ Zpos m = 2 ^ 52 /\ e = ex + (Zdigits2 mx - 53) + 1)).
Proof.
  intros Hm Hd [Hlo Hhi]. unfold binary_round_aux.
  destruct (shr_fexp prec emax mx ex lx) as [mrs1 e1] eqn:E1.
  pose proof (shr_fexp_normal _ _ _ _ _ Hm Hd Hlo E1) as (Hm1 & Hd1 & _).
  apply shr_fexp_value in E1 as (Hv1 & He1); try assumption.
  set (m1 := shr_m mrs1) in *.
  pose proof (Zdigits2_bounds m1 Hm1) as Hb1. rewrite Hd1 in Hb1.
  change (2 ^ (53 - 1)) with 4503599627370496 in Hb1.
  change (2 ^ 53) with 9007199254740992 in Hb1.
  change (2 ^ 52) with 4503599627370496.
  change (2 ^ 53) with 9007199254740992.
  set (m1r := round_nearest_even m1 (loc_of_shr_record mrs1)).
  assert (Hr : m1r = m1 \/ m1r = m1 + 1) by apply round_nearest_even_cases.
  rewrite <- Hv1.
  destruct (Z.eq_dec m1r 9007199254740992) as [Etop|Etop].
  - rewrite Etop. unfold shr_fexp. change (Zdigits2 9007199254740992) with 54.
    rewrite fexp_normal by lia.
    replace (54 + e1 - 53 - e1) with 1 by lia. simpl.
    replace (e1 + 1 <=? emax - prec) with true
      by (symmetry; apply Z.leb_le; unfold PyFloat.emax, PyFloat.prec; lia).
    exists 4503599627370496%positive, (e1 + 1), 9007199254740992.
    split; [reflexivity|]. split; [reflexivity|].
    split; [lia|]. split; [lia|]. right. repeat split; lia.
  - assert (Hd1r : Zdigits2 m1r = 53) by (apply Zdigits2_unique; simpl; lia).
    unfold shr_fexp. rewrite Hd1r, fexp_normal by lia.
    rewrite shr_noop by lia. simpl.
    destruct m1r as [|p|p] eqn:Ep; try lia.
    replace (e1 <=? emax - prec) with true
      by (symmetry; apply Z.leb_le; unfold PyFloat.emax, PyFloat.prec; lia).
    exists p, e1, (Zpos p).
    split; [reflexivity|]. split; [exact Hd1r|].
    split; [lia|]. split; [lia|]. left. repeat split; lia.
Qed.

(** ** A size resolved against itself *)

Lemma new_location_zero n : new_location n 0 = loc_Exact.
Proof.
  unfold new_location, new_location_even, new_location_odd.
  destruct (Z.even n); reflexivity.
Qed.

(** [a / a] is [1.0]. *)
Lemma int_truediv_same a : 0 < a -> PyFloat.int_truediv a a = Ok PyFloat.one.
Proof.
  intros Ha. unfold PyFloat.int_truediv.
  replace (a =? 0) with false by (symmetry; apply Z.eqb_neq; lia).
  replace (a <? 0) with false by (symmetry; apply Z.ltb_ge; lia).
  rewrite !Z.abs_eq by lia. cbn [xorb].
  unfold SFdiv_core_binary. rewrite !Z.add_0_r, !Z.sub_0_r, Z.sub_diag.
  rewrite fexp_normal by lia.
  change (Z.min (0 - 53) 0) with (-53). change (0 - -53) with 53.
  cbv iota. rewrite Z.shiftl_mul_pow2 by lia.
  assert (Hq : Z.div_eucl (a * 2 ^ 53) a = (2 ^ 53, 0)).
  { pose proof (Z.div_eucl_eq (a * 2 ^ 53) a ltac:(lia)) as Heq.
    assert (H1 : fst (Z.div_eucl (a * 2 ^ 53) a) = a * 2 ^ 53 / a) by reflexivity.
    assert (H2 : snd (Z.div_eucl (a * 2 ^ 53) a) = (a * 2 ^ 53) mod a) by reflexivity.
    destruct (Z.div_eucl (a * 2 ^ 53) a) as [q r]. simpl in H1, H2.
    rewrite H1, H2. rewrite (Z.mul_comm a), Z.div_mul, Z.mod_mul by lia. reflexivity. }
  rewrite Hq, new_location_zero. vm_compute. reflexivity.
Qed.

Lemma min_same f : PyFloat.min f f = f.
Proof. unfold PyFloat.min. destruct (PyFloat.ltb f f); reflexivity. Qed.

(** X10: a positive size of at most 2^53 per axis, resolved against
    itself as the target, is returned as it is, whatever the two flags. *)
Theorem same_size_is_a_fixed_point (w h : Z) (keep_aspect_ratio no_upscale : bool) :
  0 < w <= 2 ^ 53 -> 0 < h <= 2 ^ 53 ->
  get_target_size (w, h) (w, h) keep_aspect_ratio no_upscale = Ok (w, h).
Proof.
  intros [Hw Bw] [Hh Bh]. destruct keep_aspect_ratio.
  - unfold get_target_size.
    replace ((w =? 0) || (h =? 0)) with false
      by (symmetry; apply orb_false_iff; split; apply Z.eqb_neq; lia).
    rewrite !int_truediv_same by assumption. cbn [rbind].
    destruct (of_int_small w ltac:(lia)) as (mw & e1 & Fw & Dw & Ew & Rw).
    destruct (of_int_small h ltac:(lia)) as (mh & e2 & Fh & Dh & Eh & Rh).
    assert (Hscale : (if no_upscale then PyFloat.min (PyFloat.min PyFloat.one PyFloat.one) PyFloat.one
                      else PyFloat.min PyFloat.one PyFloat.one) = PyFloat.one)
      by (destruct no_upscale; rewrite !min_same; reflexivity).
    cbv zeta. rewrite Hscale.
    unfold PyFloat.int_mul. rewrite Fw, Fh. cbn [rbind].
    rewrite !mul_one_exact by (try assumption; lia).
    rewrite Rw, Rh. cbn [rbind].
    rewrite !int_max_spec. f_equal. f_equal; lia.
  - destruct no_upscale; simpl; rewrite ?int_min_spec, ?Z.min_id; reflexivity.
Qed.

(** ** Doubles as scaled integers

    The value [m * 2^e] of a double is compared with others after
    multiplying by [2^T], for a [T] that makes every exponent at hand
    non-negative. *)

Lemma pow2_add a b : 0 <= a -> 0 <= b -> 2 ^ (a + b) = 2 ^ a * 2 ^ b.
Proof. intros. apply Z.pow_add_r; assumption. Qed.

Lemma mantissa_bounds m :
  Zpos (digits2_pos m) = 53 -> 2 ^ 52 <= Zpos m < 2 ^ 53.
Proof.
  intros Hd. pose proof (Zdigits2_bounds (Zpos m) ltac:(lia)) as Hb.
  change (Zdigits2 (Zpos m)) with (Zpos (digits2_pos m)) in Hb.
  rewrite Hd in Hb. exact Hb.
Qed.

(** The double returned for [mx * 2^ex] is [r * 2^(ex + n)], with [r] the
    53 leading digits of [mx] or their successor. *)
Lemma binary_round_aux_scaled sx mx ex lx :
  0 < mx -> 53 <= Zdigits2 mx -> -1021 <= Zdigits2 mx + ex <= 1023 ->
  exists m e r,
    binary_round_aux prec emax sx mx ex lx = S754_finite sx m e /\
    Zpos (digits2_pos m) = 53 /\
    mx / 2 ^ (Zdigits2 mx - 53) <= r <= mx / 2 ^ (Zdigits2 mx - 53) + 1 /\
    2 ^ 52 <= mx / 2 ^ (Zdigits2 mx - 53) /\
    ex + (Zdigits2 mx - 53) <= e <= ex + (Zdigits2 mx - 53) + 1 /\
    (e = ex + (Zdigits2 mx - 53) + 1 -> Zpos m = 2 ^ 52) /\
    forall T, 0 <= ex + (Zdigits2 mx - 53) + T ->
      Zpos m * 2 ^ (e + T) = r * 2 ^ (ex + (Zdigits2 mx - 53) + T).
Proof.
  intros Hm Hd Hr.
  destruct (binary_round_aux_value sx mx ex lx Hm Hd Hr)
    as (m & e & r & Hf & Hdm & Hrr & Hq & Hcase).
  exists m, e, r. split; [exact Hf|]. split; [exact Hdm|].
  split; [exact Hrr|]. split; [lia|].
  destruct Hcase as [(Hlt & Hmr & He) | (Htop & Hmr & He)].
  - split; [lia|]. split; [lia|]. intros T HT. rewrite Hmr, He. reflexivity.
  - split; [lia|]. split; [intros _; exact Hmr|]. intros T HT.
    rewrite Hmr, He, Htop.
    replace (ex + (Zdigits2 mx - 53) + 1 + T)
      with (1 + (ex + (Zdigits2 mx - 53) + T)) by lia.
    rewrite pow2_add by lia. change (2 ^ 53) with (2 ^ 52 * 2 ^ 1). ring.
Qed.

(** Rounding raises a value by at most one part in 2^52. *)
Lemma binary_round_aux_upper sx mx ex lx T :
  0 < mx -> 53 <= Zdigits2 mx -> -1021 <= Zdigits2 mx + ex <= 1023 ->
  0 <= ex + T ->
  exists m e,
    binary_round_aux prec emax sx mx ex lx = S754_finite sx m e /\
    Zpos (digits2_pos m) = 53 /\
    ex + (Zdigits2 mx - 53) <= e <= ex + (Zdigits2 mx - 53) + 1 /\
    (e = ex + (Zdigits2 mx - 53) + 1 -> Zpos m = 2 ^ 52) /\
    Zpos m * 2 ^ (e + T) * 2 ^ 52 <= mx * 2 ^ (ex + T) * (2 ^ 52 + 1).
Proof.
  intros Hm Hd Hr HT.
  destruct (binary_round_aux_scaled sx mx ex lx Hm Hd Hr)
    as (m & e & r & Hf & Hdm & Hrr & Hq & He & Htop & Hval).
  exists m, e. repeat (split; [assumption|]).
  rewrite (Hval T) by lia.
  set (n := Zdigits2 mx - 53) in *.
  replace (ex + n + T) with (ex + T + n) by lia.
  rewrite pow2_add by lia.
  pose proof (pow2_pos (ex + T) HT) as HP. pose proof (pow2_pos n ltac:(lia)) as HN.
  pose proof (Z.mul_div_le mx (2 ^ n) HN) as Hdiv.
  set (P := 2 ^ (ex + T)) in *. set (N := 2 ^ n) in *.
  set (q := mx / N) in *. set (B := 2 ^ 52) in *.
  assert (HB : 0 < B) by (apply pow2_pos; lia).
  assert (H1 : r * B <= q * (B + 1)) by nia.
  assert (H2 : r * B * N <= mx * (B + 1)).
  { apply Z.le_trans with (q * (B + 1) * N); [nia|]. nia. }
  replace (r * (P * N) * B) with (r * B * N * P) by ring.
  replace (mx * P * (B + 1)) with (mx * (B + 1) * P) by ring.
  apply Z.mul_le_mono_nonneg_r; lia.
Qed.

(** [a / b] is at most the exact quotient raised by one part in 2^52, and
    at most [1.0] when [a < b]. *)
Lemma int_truediv_upper a b T :
  0 < a -> 0 < b -> -1021 <= Zdigits2 a - Zdigits2 b <= 1022 -> 1074 <= T ->
  exists m e,
    PyFloat.int_truediv a b = Ok (S754_finite false m e) /\
    Zpos (digits2_pos m) = 53 /\
    Zdigits2 a - Zdigits2 b - 53 <= e <= Zdigits2 a - Zdigits2 b - 51 /\
    (a < b -> e < -52 \/ (e = -52 /\ Zpos m = 2 ^ 52)) /\
    Zpos m * 2 ^ (e + T) * 2 ^ 52 * b <= a * 2 ^ T * (2 ^ 52 + 1).
Proof.
  intros Ha Hb Hd HT. unfold PyFloat.int_truediv.
  replace (b =? 0) with false by (symmetry; apply Z.eqb_neq; lia).
  replace (a =? 0) with false by (symmetry; apply Z.eqb_neq; lia).
  replace (a <? 0) with false by (symmetry; apply Z.ltb_ge; lia).
  replace (b <? 0) with false by (symmetry; apply Z.ltb_ge; lia).
  rewrite !Z.abs_eq by lia. cbn [xorb].
  unfold SFdiv_core_binary. rewrite !Z.add_0_r, !Z.sub_0_r.
  rewrite fexp_normal by lia.
  set (e' := Z.min (Zdigits2 a - Zdigits2 b - 53) 0).
  set (s := 0 - e').
  assert (Hs : 0 <= s) by lia.
  rewrite (shifted_mantissa a s Hs).
  pose proof (Zdigits2_quotient a b s Ha Hb Hs ltac:(lia)) as Hq.
  assert (Hqdiv : fst (Z.div_eucl (a * 2 ^ s) b) = a * 2 ^ s / b) by reflexivity.
  destruct (Z.div_eucl (a * 2 ^ s) b) as [q r]. simpl in Hqdiv. subst q.
  pose proof (pow2_pos s Hs) as Hps.
  assert (Hq0 : 0 <= a * 2 ^ s / b) by (apply Z.div_pos; [nia | exact Hb]).
  pose proof (Z.mul_div_le (a * 2 ^ s) b Hb) as Hqb.
  assert (Hlt : a < b -> a * 2 ^ s / b < 2 ^ s)
    by (intros Hab; apply Z.div_lt_upper_bound; [exact Hb | nia]).
  remember (a * 2 ^ s / b) as q eqn:Eq.
  assert (Hqpos : 0 < q).
  { destruct q as [|p|p]; simpl in Hq; lia. }
  destruct (binary_round_aux_upper false q e' (new_location b r) T Hqpos)
    as (m & e & Hr & Hdm & He & Htop & Hval); [lia | lia | lia |].
  rewrite Hr. exists m, e.
  split; [reflexivity|]. split; [exact Hdm|]. split; [lia|]. split.
  - intros Hab. specialize (Hlt Hab).
    pose proof (Zdigits2_le q s Hqpos Hlt) as Hds.
    destruct (Z.eq_dec e (e' + (Zdigits2 q - 53) + 1)) as [E|E].
    + specialize (Htop E). lia.
    + left. lia.
  - replace (2 ^ T) with (2 ^ (e' + T) * 2 ^ s)
      by (rewrite <- pow2_add by lia; f_equal; lia).
    pose proof (pow2_pos (e' + T) ltac:(lia)) as HP.
    set (P := 2 ^ (e' + T)) in *. set (S := 2 ^ s) in *.
    set (B := 2 ^ 52) in *. set (V := Zpos m * 2 ^ (e + T)) in *.
    assert (HB : 0 < B) by (apply pow2_pos; lia).
    apply Z.le_trans with (q * P * (B + 1) * b).
    + apply Z.mul_le_mono_nonneg_r; lia.
    + replace (q * P * (B + 1) * b) with (b * q * (P * (B + 1))) by ring.
      replace (a * (P * S) * (B + 1)) with (a * S * (P * (B + 1))) by ring.
      apply Z.mul_le_mono_nonneg_r; [nia | lia].
Qed.

(** An int of at most 53 bits is a double of the same value. *)
Lemma of_int_scaled n :
  0 < n <= 2 ^ 53 ->
  exists m e,
    PyFloat.of_int n = Ok (S754_finite false m e) /\
    Zpos (digits2_pos m) = 53 /\ -52 <= e <= 1 /\
    Zpos m * 2 ^ (e + 52) = n * 2 ^ 52.
Proof.
  intros [Hn Hle]. destruct (Z.eq_dec n (2 ^ 53)) as [->|Hne].
  { exists 4503599627370496%positive, 1.
    split; [vm_compute; reflexivity|]. repeat split; vm_compute; congruence. }
  destruct n as [|p|p]; try lia.
  assert (Hd : Zdigits2 (Zpos p) <= 53) by (apply Zdigits2_le; lia).
  pose proof (Zdigits2_pos (Zpos p) ltac:(lia)) as Hd0.
  unfold PyFloat.of_int, binary_normalize, binary_round.
  pose proof (shl_align_normal p) as Hal.
  destruct (shl_align p 0 _) as [mz ez].
  destruct Hal as (_ & Hsame & Hval & Hez & H53). specialize (H53 Hd).
  change (Zdigits2 (Zpos mz)) with (Zpos (digits2_pos mz)) in *.
  rewrite binary_round_aux_exact by lia.
  exists mz, ez. repeat split; try lia.
  assert (Hp : 2 ^ 52 = 2 ^ (- ez) * 2 ^ (ez + 52))
    by (rewrite <- pow2_add by lia; f_equal; lia).
  rewrite Hval, Hp. ring.
Qed.

(** The order on normal doubles is the order on their values. *)
Lemma ltb_scaled m1 e1 m2 e2 T :
  Zpos (digits2_pos m1) = 53 -> Zpos (digits2_pos m2) = 53 ->
  0 <= e1 + T -> 0 <= e2 + T ->
  if PyFloat.ltb (S754_finite false m1 e1) (S754_finite false m2 e2)
  then Zpos m1 * 2 ^ (e1 + T) < Zpos m2 * 2 ^ (e2 + T)
  else Zpos m2 * 2 ^ (e2 + T) <= Zpos m1 * 2 ^ (e1 + T).
Proof.
  intros Hd1 Hd2 H1 H2.
  pose proof (mantissa_bounds m1 Hd1) as B1.
  pose proof (mantissa_bounds m2 Hd2) as B2.
  assert (Hstep : forall ma ea mb eb,
             2 ^ 52 <= ma < 2 ^ 53 -> 2 ^ 52 <= mb < 2 ^ 53 ->
             0 <= ea + T -> ea < eb ->
             ma * 2 ^ (ea + T) < mb * 2 ^ (eb + T)).
  { intros ma ea mb eb Ba Bb Ha Hlt.
    replace (eb + T) with (ea + T + 1 + (eb - ea - 1)) by lia.
    rewrite (pow2_add (ea + T + 1) (eb - ea - 1)), (pow2_add (ea + T) 1) by lia.
    pose proof (pow2_pos (ea + T) Ha) as HP.
    pose proof (pow2_pos (eb - ea - 1) ltac:(lia)) as HQ.
    change (2 ^ 53) with (2 * 2 ^ 52) in *. change (2 ^ 1) with 2.
    set (B := 2 ^ 52) in *. set (P := 2 ^ (ea + T)) in *.
    set (Q := 2 ^ (eb - ea - 1)) in *.
    apply Z.lt_le_trans with (2 * B * P); [nia|].
    apply Z.le_trans with (mb * (P * 2)); [nia|].
    replace (mb * (P * 2 * Q)) with (mb * (P * 2) * Q) by ring.
    assert (0 <= mb * (P * 2)) by nia. nia. }
  unfold PyFloat.ltb, SFltb, SFcompare.
  destruct (Z.compare_spec e1 e2) as [->|Hlt|Hgt].
  - change (PosDef.Pos.compare_cont Eq m1 m2) with (Pos.compare m1 m2).
    pose proof (pow2_pos (e2 + T) H2) as HP.
    destruct (Pos.compare_spec m1 m2) as [->|E|E].
    + lia.
    + apply Pos2Z.pos_lt_pos in E. nia.
    + apply Pos2Z.pos_lt_pos in E. nia.
  - apply Hstep; assumption.
  - apply Z.lt_le_incl, Hstep; assumption.
Qed.

(** [min] of two normal doubles is one of them, and at most both. *)
Lemma min_scaled m1 e1 m2 e2 T :
  Zpos (digits2_pos m1) = 53 -> Zpos (digits2_pos m2) = 53 ->
  0 <= e1 + T -> 0 <= e2 + T ->
  exists m e,
    PyFloat.min (S754_finite false m1 e1) (S754_finite false m2 e2)
    = S754_finite false m e /\
    Zpos (digits2_pos m) = 53 /\ e = Z.min e1 e2 /\
    Zpos m * 2 ^ (e + T) <= Zpos m1 * 2 ^ (e1 + T) /\
    Zpos m * 2 ^ (e + T) <= Zpos m2 * 2 ^ (e2 + T).
Proof.
  intros Hd1 Hd2 H1 H2.
  destruct (min_normal (S754_finite false m1 e1) (S754_finite false m2 e2) e1 e2)
    as (m & Hmin & Hdm); [exists m1; auto | exists m2; auto |].
  exists m, (Z.min e1 e2). split; [exact Hmin|]. split; [exact Hdm|].
  split; [reflexivity|].
  unfold PyFloat.min in Hmin.
  pose proof (ltb_scaled m2 e2 m1 e1 T Hd2 Hd1 H2 H1) as Hc.
  destruct (PyFloat.ltb (S754_finite false m2 e2) (S754_finite false m1 e1));
    injection Hmin as <- <-; lia.
Qed.

(** [min] of two normal doubles does not depend on their order. *)
Lemma min_comm m1 e1 m2 e2 :
  PyFloat.min (S754_finite false m1 e1) (S754_finite false m2 e2)
  = PyFloat.min (S754_finite false m2 e2) (S754_finite false m1 e1).
Proof.
  unfold PyFloat.min, PyFloat.ltb, SFltb, SFcompare.
  rewrite (Z.compare_antisym e1 e2).
  destruct (Z.compare_spec e1 e2) as [->|Hlt|Hgt]; cbn [CompOpp]; try reflexivity.
  change (PosDef.Pos.compare_cont Eq m1 m2) with (Pos.compare m1 m2).
  change (PosDef.Pos.compare_cont Eq m2 m1) with (Pos.compare m2 m1).
  rewrite (Pos.compare_antisym m1 m2).
  destruct (Pos.compare_spec m1 m2) as [->|E|E]; reflexivity.
Qed.

(** A double at most [1.0] is its own [min] with [1.0]. *)
Lemma min_one_below m e :
  e < -52 \/ (e = -52 /\ Zpos m = 2 ^ 52) ->
  PyFloat.min (S754_finite false m e) PyFloat.one = S754_finite false m e.
Proof.
  intros He. unfold PyFloat.min, PyFloat.ltb, SFltb, SFcompare, PyFloat.one.
  destruct (Z.compare_spec (-52) e) as [Heq|Hlt|Hgt]; try reflexivity; try lia.
  destruct He as [He | [_ Hm]]; [lia|].
  assert (E : m = 4503599627370496%positive) by (apply Pos2Z.inj; exact Hm).
  rewrite E. reflexivity.
Qed.

(** [min(x, 1.0)] is [1.0], or [x] with [x] below [1.0]. *)
Lemma min_one_cases m e :
  Zpos (digits2_pos m) = 53 ->
  (PyFloat.min (S754_finite false m e) PyFloat.one = PyFloat.one /\ -52 <= e) \/
  (PyFloat.min (S754_finite false m e) PyFloat.one = S754_finite false m e /\
   e < -52).
Proof.
  intros Hd. destruct (Z_lt_le_dec e (-52)) as [Hlt|Hge].
  - right. split; [apply min_one_below; left; exact Hlt | exact Hlt].
  - left. split; [|exact Hge].
    apply (min_one_above _ e); [exists m; auto | exact Hge].
Qed.

(** ** Rounding to an int *)

(** [round] of a value below [N + 1/2] is at most [N]. *)
Lemma round_half_even_below m e N T :
  0 <= T -> 0 <= e + T ->
  2 * (Zpos m * 2 ^ (e + T)) < (2 * N + 1) * 2 ^ T ->
  PyFloat.round_half_even m e <= N.
Proof.
  intros HT HeT Hlt. pose proof (pow2_pos T HT) as HP.
  unfold PyFloat.round_half_even. destruct e as [|k|k].
  - rewrite Z.add_0_l in Hlt. nia.
  - rewrite pow2_add in Hlt by lia.
    pose proof (pow2_pos (Zpos k) ltac:(lia)) as HK. nia.
  - pose proof (pow2_pos (Zpos k) ltac:(lia)) as HK.
    assert (Hm : 2 * Zpos m < (2 * N + 1) * 2 ^ Zpos k).
    { assert (Hp : 2 ^ T = 2 ^ (Zneg k + T) * 2 ^ Zpos k)
        by (rewrite <- pow2_add by lia; f_equal; lia).
      rewrite Hp in Hlt.
      pose proof (pow2_pos (Zneg k + T) HeT) as HQ.
      set (Q := 2 ^ (Zneg k + T)) in *. set (K := 2 ^ Zpos k) in *.
      nia. }
    pose proof (Z.div_mod (Zpos m) (2 ^ Zpos k) ltac:(lia)) as Hdm.
    pose proof (Z.mod_pos_bound (Zpos m) (2 ^ Zpos k) HK) as Hmod.
    set (K := 2 ^ Zpos k) in *. set (q := Zpos m / K) in *.
    set (r := Zpos m mod K) in *.
    assert (Hq : q <= N) by nia.
    destruct (Z.compare_spec (2 * r) K) as [E|E|E].
    + destruct (Z.even q); [exact Hq | nia].
    + exact Hq.
    + nia.
Qed.

(** ** One axis of the scaled size *)

(** What [n * scale] hands to the rounding, for [n] of at most 53 bits
    and a normal [scale]. *)
Lemma int_mul_unfolds n ms es :
  0 < n <= 2 ^ 53 -> Zpos (digits2_pos ms) = 53 ->
  exists mo eo,
    Zpos (digits2_pos mo) = 53 /\ -52 <= eo <= 1 /\
    Zpos mo * 2 ^ (eo + 52) = n * 2 ^ 52 /\
    105 <= Zdigits2 (Zpos mo * Zpos ms) <= 106 /\
    PyFloat.int_mul n (S754_finite false ms es)
    = Ok (binary_round_aux prec emax false (Zpos mo * Zpos ms) (eo + es) loc_Exact).
Proof.
  intros Hn Hds.
  destruct (of_int_scaled n Hn) as (mo & eo & Hf & Hdo & Heo & Hval).
  exists mo, eo. repeat (split; [assumption || lia|]).
  pose proof (Zdigits2_mul (Zpos mo) (Zpos ms) ltac:(lia) ltac:(lia)) as Hd.
  change (Zdigits2 (Zpos mo)) with (Zpos (digits2_pos mo)) in Hd.
  change (Zdigits2 (Zpos ms)) with (Zpos (digits2_pos ms)) in Hd.
  rewrite Hdo, Hds in Hd. split; [lia|].
  unfold PyFloat.int_mul. rewrite Hf. reflexivity.
Qed.

(** With a scale below [1.0], the rounded axis is at most the original. *)
Lemma scaled_axis_shrinks n ms es :
  0 < n <= 2 ^ 53 -> Zpos (digits2_pos ms) = 53 -> -1000 <= es < -52 ->
  exists r,
    (x <-? PyFloat.int_mul n (S754_finite false ms es) ;; PyFloat.round x) = Ok r /\
    r <= n.
Proof.
  intros Hn Hds Hes.
  destruct (int_mul_unfolds n ms es Hn Hds) as (mo & eo & Hdo & Heo & Hval & Hd & ->).
  destruct (binary_round_aux_scaled false (Zpos mo * Zpos ms) (eo + es) loc_Exact)
    as (m & e & r & -> & Hdm & Hr & _ & He & _ & Hscaled); [lia | lia | lia |].
  cbn [rbind PyFloat.round cond_Zopp]. eexists. split; [reflexivity|].
  set (n1 := Zdigits2 (Zpos mo * Zpos ms) - 53) in *.
  set (k := - es - n1).
  pose proof (mantissa_bounds ms Hds) as Bs.
  pose proof (pow2_pos k ltac:(lia)) as Hk.
  pose proof (pow2_pos n1 ltac:(lia)) as Hn1.
  assert (Hq : Zpos mo * Zpos ms / 2 ^ n1 < Zpos mo * 2 ^ k).
  { apply Z.div_lt_upper_bound; [exact Hn1|].
    replace (2 ^ n1 * (Zpos mo * 2 ^ k)) with (Zpos mo * (2 ^ k * 2 ^ n1)) by ring.
    rewrite <- pow2_add by lia.
    apply Z.mul_lt_mono_pos_l; [lia|].
    apply Z.lt_le_trans with (2 ^ 53); [lia|].
    apply Z.pow_le_mono_r; lia. }
  apply (round_half_even_below m e n (- es)); [lia | lia |].
  rewrite (Hscaled (- es)) by lia.
  replace (eo + es + n1 + - es) with (eo + n1) by lia.
  assert (Hle : r * 2 ^ (eo + n1) <= n * 2 ^ (- es)).
  { apply Z.mul_le_mono_pos_r with (2 ^ 52); [apply pow2_pos; lia|].
    replace (n * 2 ^ (- es) * 2 ^ 52) with (n * 2 ^ 52 * 2 ^ (- es)) by ring.
    rewrite <- Hval.
    replace (- es) with (k + n1) by lia.
    rewrite (pow2_add k n1) by lia.
    replace (r * 2 ^ (eo + n1) * 2 ^ 52) with (r * (2 ^ (eo + n1) * 2 ^ 52)) by ring.
    rewrite <- pow2_add by lia.
    replace (eo + n1 + 52) with (eo + 52 + n1) by lia.
    rewrite (pow2_add (eo + 52) n1) by lia.
    pose proof (pow2_pos (eo + 52) ltac:(lia)) as He52.
    replace (Zpos mo * 2 ^ (eo + 52) * (2 ^ k * 2 ^ n1))
      with (Zpos mo * 2 ^ k * (2 ^ (eo + 52) * 2 ^ n1)) by ring.
    apply Z.mul_le_mono_nonneg_r; [nia | lia]. }
  pose proof (pow2_pos (- es) ltac:(lia)). lia.
Qed.

(** With a scale at most [t / n], raised by one part in 2^52, the rounded
    axis is at most [t], for [t] up to 2^49. *)
Lemma scaled_axis_fits n ms es t T :
  0 < n <= 2 ^ 53 -> 0 < t <= 2 ^ 49 ->
  Zpos (digits2_pos ms) = 53 -> -1000 <= es <= 900 ->
  0 <= T -> 0 <= es + T ->
  Zpos ms * 2 ^ (es + T) * 2 ^ 52 * n <= t * 2 ^ T * (2 ^ 52 + 1) ->
  exists r,
    (x <-? PyFloat.int_mul n (S754_finite false ms es) ;; PyFloat.round x) = Ok r /\
    r <= t.
Proof.
  intros Hn Ht Hds Hes HT HesT Hscale.
  destruct (int_mul_unfolds n ms es Hn Hds) as (mo & eo & Hdo & Heo & Hval & Hd & ->).
  destruct (binary_round_aux_upper false (Zpos mo * Zpos ms) (eo + es) loc_Exact (T + 52))
    as (m & e & -> & Hdm & He & _ & Hup); [lia | lia | lia | lia |].
  cbn [rbind PyFloat.round cond_Zopp]. eexists. split; [reflexivity|].
  apply (round_half_even_below m e t (T + 52)); [lia | lia |].
  replace (e + (T + 52)) with (e + T + 52) in * by lia.
  replace (eo + es + (T + 52)) with (eo + 52 + (es + T)) in Hup by lia.
  rewrite (pow2_add (eo + 52) (es + T)) in Hup by lia.
  rewrite (pow2_add T 52) by lia.
  pose proof (pow2_pos T HT) as HP.
  set (X := Zpos m * 2 ^ (e + T + 52)) in *.
  set (Vs := Zpos ms * 2 ^ (es + T)) in *.
  set (P := 2 ^ T) in *.
  assert (H1 : X * 2 ^ 52 <= Vs * 2 ^ 52 * n * (2 ^ 52 + 1)).
  { replace (Vs * 2 ^ 52 * n * (2 ^ 52 + 1))
      with (Zpos mo * Zpos ms * (2 ^ (eo + 52) * 2 ^ (es + T)) * (2 ^ 52 + 1)).
    - exact Hup.
    - unfold Vs.
      replace (Zpos mo * Zpos ms * (2 ^ (eo + 52) * 2 ^ (es + T)))
        with (Zpos mo * 2 ^ (eo + 52) * (Zpos ms * 2 ^ (es + T))) by ring.
      rewrite Hval. ring. }
  assert (H2 : X * 2 ^ 52 <= t * P * (2 ^ 52 + 1) * (2 ^ 52 + 1)).
  { eapply Z.le_trans; [exact H1|]. apply Z.mul_le_mono_nonneg_r; lia. }
  assert (H3 : t * P <= 2 ^ 49 * P) by (apply Z.mul_le_mono_nonneg_r; lia).
  set (tP := t * P) in *.
  replace ((2 * t + 1) * (P * 2 ^ 52)) with ((2 * tP + P) * 2 ^ 52) by (unfold tP; ring).
  lia.
Qed.

(** ** The resolver under the aspect lock, from its parts *)

Lemma aspect_locked_unfolds ow oh tw th (no_upscale : bool) sw sh rw rh :
  ow <> 0 -> oh <> 0 ->
  PyFloat.int_truediv tw ow = Ok sw -> PyFloat.int_truediv th oh = Ok sh ->
  (x <-? PyFloat.int_mul ow
           (if no_upscale then PyFloat.min (PyFloat.min sw sh) PyFloat.one
            else PyFloat.min sw sh) ;; PyFloat.round x) = Ok rw ->
  (x <-? PyFloat.int_mul oh
           (if no_upscale then PyFloat.min (PyFloat.min sw sh) PyFloat.one
            else PyFloat.min sw sh) ;; PyFloat.round x) = Ok rh ->
  get_target_size (ow, oh) (tw, th) true no_upscale
  = Ok (int_max 1 rw, int_max 1 rh).
Proof.
  intros How Hoh Hsw Hsh Hrw Hrh. unfold get_target_size.
  replace ((ow =? 0) || (oh =? 0)) with false
    by (symmetry; apply orb_false_iff; split; apply Z.eqb_neq; assumption).
  rewrite Hsw, Hsh. cbn [rbind]. cbv zeta.
  unfold rbind in Hrw, Hrh.
  destruct (PyFloat.int_mul ow _) as [xw|]; [|discriminate].
  destruct (PyFloat.int_mul oh _) as [xh|]; [|discriminate].
  cbn [rbind]. rewrite Hrw. cbn [rbind]. rewrite Hrh. reflexivity.
Qed.

(** The scale of the resolver: a normal double, at most each of the two
    quotients raised by one part in 2^52. *)
Lemma scale_upper ow oh tw th (no_upscale : bool) T :
  0 < ow < 2 ^ 1000 -> 0 < oh < 2 ^ 1000 ->
  0 < tw < 2 ^ 1000 -> 0 < th < 2 ^ 1000 -> 1074 <= T ->
  exists mw ew mh eh ms es,
    let sw := S754_finite false mw ew in
    let sh := S754_finite false mh eh in
    PyFloat.int_truediv tw ow = Ok sw /\ PyFloat.int_truediv th oh = Ok sh /\
    (if no_upscale then PyFloat.min (PyFloat.min sw sh) PyFloat.one
     else PyFloat.min sw sh) = S754_finite false ms es /\
    Zpos (digits2_pos ms) = 53 /\
    Z.min (Z.min (Zdigits2 tw - Zdigits2 ow) (Zdigits2 th - Zdigits2 oh) - 53) (-52)
      <= es <= Z.min (Zdigits2 tw - Zdigits2 ow) (Zdigits2 th - Zdigits2 oh) - 51 /\
    Zpos ms * 2 ^ (es + T) * 2 ^ 52 * ow <= tw * 2 ^ T * (2 ^ 52 + 1) /\
    Zpos ms * 2 ^ (es + T) * 2 ^ 52 * oh <= th * 2 ^ T * (2 ^ 52 + 1) /\
    (no_upscale = true -> S754_finite false ms es = PyFloat.one \/ es < -52) /\
    (tw < ow \/ th < oh ->
     PyFloat.min (PyFloat.min sw sh) PyFloat.one = PyFloat.min sw sh).
Proof.
  intros [How Bow] [Hoh Boh] [Htw Btw] [Hth Bth] HT.
  pose proof (digits_below_pow2 _ _ How Bow) as Dow.
  pose proof (digits_below_pow2 _ _ Hoh Boh) as Doh.
  pose proof (digits_below_pow2 _ _ Htw Btw) as Dtw.
  pose proof (digits_below_pow2 _ _ Hth Bth) as Dth.
  pose proof (Zdigits2_pos _ How) as Pow. pose proof (Zdigits2_pos _ Hoh) as Poh.
  pose proof (Zdigits2_pos _ Htw) as Ptw. pose proof (Zdigits2_pos _ Hth) as Pth.
  destruct (int_truediv_upper tw ow T Htw How ltac:(lia) HT)
    as (mw & ew & Hsw & Hdw & Hew & Hbw & Hvw).
  destruct (int_truediv_upper th oh T Hth Hoh ltac:(lia) HT)
    as (mh & eh & Hsh & Hdh & Heh & Hbh & Hvh).
  destruct (min_scaled mw ew mh eh T Hdw Hdh ltac:(lia) ltac:(lia))
    as (m0 & e0 & Hmin0 & Hd0 & He0 & H0w & H0h).
  pose proof (pow2_pos T ltac:(lia)) as HP.
  assert (HB : 0 < 2 ^ 52) by (apply pow2_pos; lia).
  assert (Hup : forall m e o t,
             0 < o -> 0 <= Zpos m * 2 ^ (e + T) ->
             Zpos m * 2 ^ (e + T) <= Zpos m0 * 2 ^ (e0 + T) ->
             Zpos m0 * 2 ^ (e0 + T) <= t ->
             Zpos m * 2 ^ (e + T) <= t) by (intros; lia).
  assert (Hv0w : Zpos m0 * 2 ^ (e0 + T) * 2 ^ 52 * ow <= tw * 2 ^ T * (2 ^ 52 + 1)).
  { eapply Z.le_trans; [|exact Hvw].
    apply Z.mul_le_mono_nonneg_r; [lia|]. apply Z.mul_le_mono_nonneg_r; lia. }
  assert (Hv0h : Zpos m0 * 2 ^ (e0 + T) * 2 ^ 52 * oh <= th * 2 ^ T * (2 ^ 52 + 1)).
  { eapply Z.le_trans; [|exact Hvh].
    apply Z.mul_le_mono_nonneg_r; [lia|]. apply Z.mul_le_mono_nonneg_r; lia. }
  assert (Hone : Zpos (digits2_pos 4503599627370496) = 53) by reflexivity.
  (* the scale against [1.0] *)
  assert (Hfit : tw < ow \/ th < oh ->
                 PyFloat.min (S754_finite false m0 e0) PyFloat.one
                 = S754_finite false m0 e0).
  { intros Hsmall.
    assert (Hbelow : exists m e,
               Zpos (digits2_pos m) = 53 /\ 0 <= e + T /\
               (e < -52 \/ (e = -52 /\ Zpos m = 2 ^ 52)) /\
               Zpos m0 * 2 ^ (e0 + T) <= Zpos m * 2 ^ (e + T)).
    { destruct Hsmall as [Hs|Hs].
      - exists mw, ew. split; [assumption|]. split; [lia|].
        split; [exact (Hbw Hs) | assumption].
      - exists mh, eh. split; [assumption|]. split; [lia|].
        split; [exact (Hbh Hs) | assumption]. }
    destruct Hbelow as (m & e & Hdm & HeT & Hle1 & Hv).
    pose proof (min_one_below m e Hle1) as Hmin.
    unfold PyFloat.min in Hmin |- *.
    pose proof (ltb_scaled 4503599627370496 (-52) m e T Hone Hdm ltac:(lia) HeT) as Hc1.
    pose proof (ltb_scaled 4503599627370496 (-52) m0 e0 T Hone Hd0 ltac:(lia) ltac:(lia))
      as Hc0.
    change (S754_finite false 4503599627370496 (-52)) with PyFloat.one in Hc1, Hc0.
    destruct (PyFloat.ltb PyFloat.one (S754_finite false m0 e0)); [|reflexivity].
    exfalso.
    destruct (PyFloat.ltb PyFloat.one (S754_finite false m e)).
    - destruct Hle1 as [Hlt | [He Hm]].
      + unfold PyFloat.one in Hmin. injection Hmin as _ He. lia.
      + subst e. rewrite Hm in Hc1. lia.
    - lia. }
  exists mw, ew, mh, eh. cbv zeta.
  destruct no_upscale.
  - rewrite Hmin0.
    destruct (min_one_cases m0 e0 Hd0) as [[E Hge] | [E Hlt]].
    + exists 4503599627370496%positive, (-52).
      split; [exact Hsw|]. split; [exact Hsh|]. split; [exact E|].
      split; [exact Hone|]. split; [lia|].
      destruct (min_scaled m0 e0 4503599627370496 (-52) T Hd0 Hone ltac:(lia) ltac:(lia))
        as (m1 & e1 & H1 & _ & _ & H10 & _).
      change (S754_finite false 4503599627370496 (-52)) with PyFloat.one in H1.
      rewrite E in H1. injection H1 as <- <-.
      split; [|split; [|split; [intros _; left; reflexivity | exact Hfit]]].
      * eapply Z.le_trans; [|exact Hv0w].
        apply Z.mul_le_mono_nonneg_r; [lia|]. apply Z.mul_le_mono_nonneg_r; lia.
      * eapply Z.le_trans; [|exact Hv0h].
        apply Z.mul_le_mono_nonneg_r; [lia|]. apply Z.mul_le_mono_nonneg_r; lia.
    + exists m0, e0.
      split; [exact Hsw|]. split; [exact Hsh|]. split; [exact E|].
      split; [exact Hd0|]. split; [lia|].
      split; [exact Hv0w|]. split; [exact Hv0h|].
      split; [intros _; right; exact Hlt | exact Hfit].
  - exists m0, e0.
    split; [exact Hsw|]. split; [exact Hsh|]. split; [exact Hmin0|].
    split; [exact Hd0|]. split; [lia|].
    split; [exact Hv0w|]. split; [exact Hv0h|].
    split; [discriminate|]. rewrite Hmin0. exact Hfit.
Qed.

(** With the scale [1.0] an axis of at most 53 bits comes back as it is. *)
Lemma unit_axis n :
  0 < n <= 2 ^ 53 ->
  (x <-? PyFloat.int_mul n PyFloat.one ;; PyFloat.round x) = Ok n.
Proof.
  intros Hn. destruct (of_int_small n Hn) as (m & e & Hf & Hd & He & Hr).
  unfold PyFloat.int_mul. rewrite Hf. cbn [rbind].
  rewrite mul_one_exact by (try assumption; lia). exact Hr.
Qed.

Lemma small_digits n : 0 < n <= 2 ^ 53 -> 1 <= Zdigits2 n <= 54.
Proof.
  intros [Hn Hle]. pose proof (Zdigits2_pos n Hn).
  pose proof (Zdigits2_le n 54 Hn ltac:(lia)). lia.
Qed.

(** X11: under the aspect lock, for a positive original of at most 2^53
    per axis and a positive target of at most 2^49 per axis, the resolver
    returns, and the size it returns is at least 1 and at most the target
    on each axis, with or without [no_upscale]. *)
Theorem aspect_locked_size_fits_the_box (ow oh tw th : Z) (no_upscale : bool) :
  0 < ow <= 2 ^ 53 -> 0 < oh <= 2 ^ 53 ->
  0 < tw <= 2 ^ 49 -> 0 < th <= 2 ^ 49 ->
  exists w h,
    get_target_size (ow, oh) (tw, th) true no_upscale = Ok (w, h) /\
    1 <= w <= tw /\ 1 <= h <= th.
Proof.
  intros How Hoh Htw Hth.
  pose proof (small_digits ow How) as Dow. pose proof (small_digits oh Hoh) as Doh.
  pose proof (small_digits tw ltac:(lia)) as Dtw.
  pose proof (small_digits th ltac:(lia)) as Dth.
  assert (Hb : 2 ^ 53 < 2 ^ 1000) by (apply Z.pow_lt_mono_r; lia).
  destruct (scale_upper ow oh tw th no_upscale 1074)
    as (mw & ew & mh & eh & ms & es & Hsw & Hsh & Hscale & Hds & Hes & Hvw & Hvh & _);
    try lia.
  destruct (scaled_axis_fits ow ms es tw 1074 How Htw Hds) as (rw & Hrw & Lw);
    [lia | lia | lia | exact Hvw |].
  destruct (scaled_axis_fits oh ms es th 1074 Hoh Hth Hds) as (rh & Hrh & Lh);
    [lia | lia | lia | exact Hvh |].
  rewrite <- Hscale in Hrw, Hrh.
  exists (int_max 1 rw), (int_max 1 rh). split.
  - apply (aspect_locked_unfolds ow oh tw th no_upscale
               (S754_finite false mw ew) (S754_finite false mh eh) rw rh);
      try assumption; lia.
  - rewrite !int_max_spec. lia.
Qed.

(** X12: with [no_upscale], for a positive original of at most 2^53 per
    axis and a positive target below 2^1000, the resolver returns a size
    that is at least 1 and at most the original on each axis, with or
    without the aspect lock. *)
Theorem no_upscale_never_enlarges (ow oh tw th : Z) (keep_aspect_ratio : bool) :
  0 < ow <= 2 ^ 53 -> 0 < oh <= 2 ^ 53 ->
  0 < tw < 2 ^ 1000 -> 0 < th < 2 ^ 1000 ->
  exists w h,
    get_target_size (ow, oh) (tw, th) keep_aspect_ratio true = Ok (w, h) /\
    1 <= w <= ow /\ 1 <= h <= oh.
Proof.
  intros How Hoh Htw Hth. destruct keep_aspect_ratio.
  - pose proof (small_digits ow How) as Dow. pose proof (small_digits oh Hoh) as Doh.
    pose proof (Zdigits2_pos tw ltac:(lia)) as Dtw.
    pose proof (Zdigits2_pos th ltac:(lia)) as Dth.
    assert (Hb : 2 ^ 53 < 2 ^ 1000) by (apply Z.pow_lt_mono_r; lia).
    destruct (scale_upper ow oh tw th true 1074)
      as (mw & ew & mh & eh & ms & es & Hsw & Hsh & Hscale & Hds & Hes & _ & _ & Hone & _);
      try lia.
    assert (Haxis : forall n, 0 < n <= 2 ^ 53 ->
               exists r,
                 (x <-? PyFloat.int_mul n (S754_finite false ms es) ;; PyFloat.round x)
                 = Ok r /\ r <= n).
    { intros n Hn. destruct (Hone eq_refl) as [-> | Hlt].
      - exists n. split; [apply unit_axis; exact Hn | lia].
      - apply scaled_axis_shrinks; [exact Hn | exact Hds | lia]. }
    destruct (Haxis ow How) as (rw & Hrw & Lw).
    destruct (Haxis oh Hoh) as (rh & Hrh & Lh).
    rewrite <- Hscale in Hrw, Hrh.
    exists (int_max 1 rw), (int_max 1 rh). split.
    + apply (aspect_locked_unfolds ow oh tw th true
               (S754_finite false mw ew) (S754_finite false mh eh) rw rh);
        try assumption; lia.
    + rewrite !int_max_spec. lia.
  - exists (int_min ow tw), (int_min oh th). split; [reflexivity|].
    rewrite !int_min_spec. lia.
Qed.

(** X13: under the aspect lock, for positive dimensions below 2^1000,
    when the target is smaller than the original on at least one axis,
    [no_upscale] does not change what the resolver returns. *)
Theorem no_upscale_is_idle_when_shrinking (ow oh tw th : Z) :
  0 < ow < 2 ^ 1000 -> 0 < oh < 2 ^ 1000 ->
  0 < tw < 2 ^ 1000 -> 0 < th < 2 ^ 1000 ->
  tw < ow \/ th < oh ->
  get_target_size (ow, oh) (tw, th) true true
  = get_target_size (ow, oh) (tw, th) true false.
Proof.
  intros How Hoh Htw Hth Hsmall.
  destruct (scale_upper ow oh tw th false 1074 How Hoh Htw Hth ltac:(lia))
    as (mw & ew & mh & eh & ms & es & Hsw & Hsh & _ & _ & _ & _ & _ & _ & Hfit).
  unfold get_target_size. rewrite Hsw, Hsh. cbn [rbind]. cbv zeta.
  rewrite (Hfit Hsmall). reflexivity.
Qed.

(** X14: for positive dimensions below 2^1000, swapping width and height
    of both the original and the target swaps width and height of the
    resolved size, whatever the two flags. *)
Theorem transposed_input_gives_transposed_size (ow oh tw th : Z)
    (keep_aspect_ratio no_upscale : bool) :
  0 < ow < 2 ^ 1000 -> 0 < oh < 2 ^ 1000 ->
  0 < tw < 2 ^ 1000 -> 0 < th < 2 ^ 1000 ->
  exists w h,
    get_target_size (ow, oh) (tw, th) keep_aspect_ratio no_upscale = Ok (w, h) /\
    get_target_size (oh, ow) (th, tw) keep_aspect_ratio no_upscale = Ok (h, w).
Proof.
  intros How Hoh Htw Hth. destruct keep_aspect_ratio.
  - pose proof (digits_below_pow2 ow 1000 ltac:(lia) ltac:(lia)) as Dow.
    pose proof (digits_below_pow2 oh 1000 ltac:(lia) ltac:(lia)) as Doh.
    pose proof (digits_below_pow2 tw 1000 ltac:(lia) ltac:(lia)) as Dtw.
    pose proof (digits_below_pow2 th 1000 ltac:(lia) ltac:(lia)) as Dth.
    pose proof (Zdigits2_pos ow ltac:(lia)) as Pow.
    pose proof (Zdigits2_pos oh ltac:(lia)) as Poh.
    pose proof (Zdigits2_pos tw ltac:(lia)) as Ptw.
    pose proof (Zdigits2_pos th ltac:(lia)) as Pth.
    destruct (scale_upper ow oh tw th no_upscale 1074 How Hoh Htw Hth ltac:(lia))
      as (mw & ew & mh & eh & ms & es & Hsw & Hsh & Hscale & Hds & Hes & _).
    assert (Ns : is_normal (S754_finite false ms es) es) by (exists ms; auto).
    destruct (scaled_axis_returns ow _ es ltac:(lia) ltac:(lia) Ns ltac:(lia) ltac:(lia))
      as [rw Hrw].
    destruct (scaled_axis_returns oh _ es ltac:(lia) ltac:(lia) Ns ltac:(lia) ltac:(lia))
      as [rh Hrh].
    rewrite <- Hscale in Hrw, Hrh.
    exists (int_max 1 rw), (int_max 1 rh). split.
    + apply (aspect_locked_unfolds ow oh tw th no_upscale
               (S754_finite false mw ew) (S754_finite false mh eh) rw rh);
        try assumption; lia.
    + rewrite (min_comm mw ew mh eh) in Hrw, Hrh.
      apply (aspect_locked_unfolds oh ow th tw no_upscale
               (S754_finite false mh eh) (S754_finite false mw ew) rh rw);
        try assumption; lia.
  - destruct no_upscale; simpl; eauto.
Qed.

(** ** The further properties on a small directory *)

Lemma summary_accounts_for_every_candidate_witness :
  (input_is_dir two_a = true /\ candidates two_a <> []) /\
  exists lines calls,
    console (snd (main demo_pil (demo_args false) two_a))
      = console two_a ++ lines
          ++ [OutSummary (ok_count lines) (skip_count lines) (failed_count lines)] /\
    pil_calls (snd (main demo_pil (demo_args false) two_a)) = pil_calls two_a ++ calls /\
    (ok_count lines + skip_count lines + failed_count lines
     = length (candidates two_a))%nat /\
    (length (opened calls) = ok_count lines + failed_count lines)%nat.
Proof.
  assert (H1 : input_is_dir two_a = true) by reflexivity.
  assert (H2 : candidates two_a <> []) by (vm_compute; discriminate).
  split; [split; assumption|].
  exact (summary_accounts_for_every_candidate demo_pil (demo_args false) two_a H1 H2).
Defined.

Lemma only_candidate_outputs_change_witness :
  (forall p, In p (candidates a_done) -> output_name_of p <> "notes.webp"%string) /\
  output_files (snd (main demo_pil (demo_args true) a_done)) !! "notes.webp"%string
    = output_files a_done !! "notes.webp"%string.
Proof.
  assert (H : forall p, In p (candidates a_done) ->
                        output_name_of p <> "notes.webp"%string).
  { intros p Hin. vm_compute in Hin.
    destruct Hin as [<-|[<-|[<-|[]]]]; vm_compute; discriminate. }
  split; [exact H|].
  exact (only_candidate_outputs_change demo_pil (demo_args true) a_done "notes.webp" H).
Defined.

Lemma every_save_uses_the_run_settings_witness :
  parse_args (demo_args false) = Accepted (demo_args false) /\
  exists calls,
    pil_calls (snd (main demo_pil (demo_args false) two_a)) = pil_calls two_a ++ calls /\
    forall out kwargs,
      In (CallSave out kwargs) calls ->
      (exists p, In p (candidates two_a) /\ out = output_name_of p) /\
      kwargs !! "format"%string = Some (VStr "WEBP") /\
      kwargs !! "method"%string = Some (VInt 6) /\
      kwargs !! "lossless"%string = Some (VBool (lossless (demo_args false))) /\
      kwargs !! "quality"%string = Some (VInt (quality (demo_args false))) /\
      0 <= quality (demo_args false) <= 100.
Proof.
  assert (H : parse_args (demo_args false) = Accepted (demo_args false)) by reflexivity.
  split; [exact H|].
  exact (every_save_uses_the_run_settings demo_pil (demo_args false) (demo_args false)
           two_a H).
Defined.

Lemma demo_pil_sizes_positive b img :
  Image_open demo_pil b = Ok img ->
  0 < fst (img_size demo_pil img) /\ 0 < snd (img_size demo_pil img).
Proof.
  destruct b as [|c b]; simpl; [discriminate|]. intros [= <-]. simpl. lia.
Qed.

Lemma resize_is_never_asked_for_an_empty_size_witness :
  parse_args (demo_args false) = Accepted (demo_args false) /\
  (forall b img, Image_open demo_pil b = Ok img ->
                 0 < fst (img_size demo_pil img) /\ 0 < snd (img_size demo_pil img)) /\
  exists calls,
    pil_calls (snd (main demo_pil (demo_args false) two_a)) = pil_calls two_a ++ calls /\
    forall n size, In (CallResize n size) calls -> 1 <= fst size /\ 1 <= snd size.
Proof.
  assert (H : parse_args (demo_args false) = Accepted (demo_args false)) by reflexivity.
  split; [exact H|]. split; [exact demo_pil_sizes_positive|].
  exact (resize_is_never_asked_for_an_empty_size demo_pil (demo_args false)
           (demo_args false) two_a H demo_pil_sizes_positive).
Defined.

Lemma failure_before_save_leaves_outputs_witness :
  fails_before_save demo_pil (demo_args true) b_png
    (PILError "cannot identify image file") /\
  exists w' calls,
    process_image demo_pil b_png (output_name_of b_png) (400, 400) 80 true true false
      a_done = (Raise (PILError "cannot identify image file"), w') /\
    output_files w' = output_files a_done /\
    pil_calls w' = pil_calls a_done ++ calls /\
    forall out kwargs, ~ In (CallSave out kwargs) calls.
Proof.
  assert (H : fails_before_save demo_pil (demo_args true) b_png
                (PILError "cannot identify image file")) by (left; reflexivity).
  split; [exact H|].
  exact (failure_before_save_leaves_outputs demo_pil (demo_args true) b_png _ a_done H).
Defined.

Lemma second_run_skips_everything_witness :
  (input_is_dir two_jpg_png = true /\
   fst (main demo_pil (demo_args true) two_jpg_png) = 0 /\
   overwrite (demo_args false) = false) /\
  fst (main demo_pil (demo_args false)
         (snd (main demo_pil (demo_args true) two_jpg_png))) = 0.
Proof.
  assert (H1 : input_is_dir two_jpg_png = true) by reflexivity.
  assert (H2 : fst (main demo_pil (demo_args true) two_jpg_png) = 0)
    by (vm_compute; reflexivity).
  assert (H3 : overwrite (demo_args false) = false) by reflexivity.
  split; [auto|].
  exact (proj1 (second_run_skips_everything demo_pil (demo_args true) (demo_args false)
                  two_jpg_png H1 H2 H3)).
Defined.

Lemma output_name_is_never_a_candidate_witness :
  is_candidate a_jpg = true /\
  stem (output_name_of a_jpg) = stem (name a_jpg) /\
  suffix (output_name_of a_jpg) = ".webp"%string /\
  forall q, name q = output_name_of a_jpg -> is_candidate q = false.
Proof.
  assert (H : is_candidate a_jpg = true) by reflexivity.
  split; [exact H|].
  exact (output_name_is_never_a_candidate a_jpg H).
Defined.

Lemma candidate_test_ignores_case_witness :
  (is_file a_jpg = is_file upper_a_jpg /\ lower (name a_jpg) = lower (name upper_a_jpg)) /\
  is_candidate a_jpg = is_candidate upper_a_jpg.
Proof.
  assert (H1 : is_file a_jpg = is_file upper_a_jpg) by reflexivity.
  assert (H2 : lower (name a_jpg) = lower (name upper_a_jpg)) by reflexivity.
  split; [split; assumption|].
  exact (candidate_test_ignores_case a_jpg upper_a_jpg H1 H2).
Defined.

Lemma same_size_is_a_fixed_point_witness :
  (0 < 1920 <= 2 ^ 53 /\ 0 < 1080 <= 2 ^ 53) /\
  get_target_size (1920, 1080) (1920, 1080) true false = Ok (1920, 1080).
Proof.
  assert (H1 : 0 < 1920 <= 2 ^ 53) by (split; [reflexivity | discriminate]).
  assert (H2 : 0 < 1080 <= 2 ^ 53) by (split; [reflexivity | discriminate]).
  split; [split; assumption|].
  exact (same_size_is_a_fixed_point 1920 1080 true false H1 H2).
Defined.

Lemma aspect_locked_size_fits_the_box_witness :
  (0 < 4000 <= 2 ^ 53 /\ 0 < 3000 <= 2 ^ 53) /\
  (0 < 1920 <= 2 ^ 49 /\ 0 < 1080 <= 2 ^ 49) /\
  exists w h,
    get_target_size (4000, 3000) (1920, 1080) true false = Ok (w, h) /\
    1 <= w <= 1920 /\ 1 <= h <= 1080.
Proof.
  assert (H1 : 0 < 4000 <= 2 ^ 53) by (split; [reflexivity | discriminate]).
  assert (H2 : 0 < 3000 <= 2 ^ 53) by (split; [reflexivity | discriminate]).
  assert (H3 : 0 < 1920 <= 2 ^ 49) by (split; [reflexivity | discriminate]).
  assert (H4 : 0 < 1080 <= 2 ^ 49) by (split; [reflexivity | discriminate]).
  split; [split; assumption|]. split; [split; assumption|].
  exact (aspect_locked_size_fits_the_box 4000 3000 1920 1080 false H1 H2 H3 H4).
Defined.

Lemma no_upscale_never_enlarges_witness :
  (0 < 640 <= 2 ^ 53 /\ 0 < 480 <= 2 ^ 53) /\
  (0 < 1920 < 2 ^ 1000 /\ 0 < 300 < 2 ^ 1000) /\
  exists w h,
    get_target_size (640, 480) (1920, 300) true true = Ok (w, h) /\
    1 <= w <= 640 /\ 1 <= h <= 480.
Proof.
  assert (H1 : 0 < 640 <= 2 ^ 53) by (split; [reflexivity | discriminate]).
  assert (H2 : 0 < 480 <= 2 ^ 53) by (split; [reflexivity | discriminate]).
  assert (H3 : 0 < 1920 < 2 ^ 1000) by (split; reflexivity).
  assert (H4 : 0 < 300 < 2 ^ 1000) by (split; reflexivity).
  split; [split; assumption|]. split; [split; assumption|].
  exact (no_upscale_never_enlarges 640 480 1920 300 true H1 H2 H3 H4).
Defined.

Lemma no_upscale_is_idle_when_shrinking_witness :
  (0 < 640 < 2 ^ 1000 /\ 0 < 480 < 2 ^ 1000) /\
  (0 < 1920 < 2 ^ 1000 /\ 0 < 300 < 2 ^ 1000) /\
  (1920 < 640 \/ 300 < 480) /\
  get_target_size (640, 480) (1920, 300) true true
  = get_target_size (640, 480) (1920, 300) true false.
Proof.
  assert (H1 : 0 < 640 < 2 ^ 1000) by (split; reflexivity).
  assert (H2 : 0 < 480 < 2 ^ 1000) by (split; reflexivity).
  assert (H3 : 0 < 1920 < 2 ^ 1000) by (split; reflexivity).
  assert (H4 : 0 < 300 < 2 ^ 1000) by (split; reflexivity).
  assert (H5 : 1920 < 640 \/ 300 < 480) by (right; reflexivity).
  split; [split; assumption|]. split; [split; assumption|].
  split; [exact H5|].
  exact (no_upscale_is_idle_when_shrinking 640 480 1920 300 H1 H2 H3 H4 H5).
Defined.

Lemma transposed_input_gives_transposed_size_witness :
  (0 < 4000 < 2 ^ 1000 /\ 0 < 3000 < 2 ^ 1000) /\
  (0 < 1920 < 2 ^ 1000 /\ 0 < 1080 < 2 ^ 1000) /\
  exists w h,
    get_target_size (4000, 3000) (1920, 1080) true false = Ok (w, h) /\
    get_target_size (3000, 4000) (1080, 1920) true false = Ok (h, w).
Proof.
  assert (H1 : 0 < 4000 < 2 ^ 1000) by (split; reflexivity).
  assert (H2 : 0 < 3000 < 2 ^ 1000) by (split; reflexivity).
  assert (H3 : 0 < 1920 < 2 ^ 1000) by (split; reflexivity).
  assert (H4 : 0 < 1080 < 2 ^ 1000) by (split; reflexivity).
  split; [split; assumption|]. split; [split; assumption|].
  exact (transposed_input_gives_transposed_size 4000 3000 1920 1080 true false
           H1 H2 H3 H4).
Defined.
